(** * BufferManager: the clock buffer pool of [buffer.cpp]

    A shallow embedding of [badgerdb::BufMgr] (src/buffer.cpp) and the
    properties its specification states about it.

    The manager's members become a record [BufMgr]; every member function
    becomes a function that passes this record along and returns a
    [Result] (a value, a raised exception, or an exhausted scan).  The
    classes [buffer.cpp] only uses ([BufDesc], [BufHashTbl], [File],
    [Page]) are declared in headers that are not among the sources; they
    are modelled from the specification, each under a comment that says
    so.  Of [printSelf] only the total it prints is modelled, and of the
    destructor what it does before it releases the memory. *)

From Stdlib Require Import ZArith NArith Lia.
From Stdlib Require Import PrimFloat.
From Stdlib Require FloatOps SpecFloat Uint63.
From stdpp Require Import base option list gmap.

Local Open Scope N_scope.

(** ** Identifiers *)

(** A [File*]: the address of a file object, [NULL] being 0.  Descriptors
    and the hash table compare files by this address only. *)
Definition File := N.
Definition NULL : File := 0.

(** [PageId] and [FrameId] are 32-bit unsigned integers. *)
Definition PageId := N.
Definition FrameId := N.

(** Wrap-around of [std::uint32_t] arithmetic. *)
Definition wrap32 (n : N) : N := n mod 2 ^ 32.

(** Modelled from the spec: the class [Page] (declared outside
    buffer.cpp), "fixed-size opaque byte container; exposes its own
    pageId". *)
Record Page := mkPage {
  page_number : PageId;
  page_data : list Byte.byte
}.

(** Modelled from the spec: [Page::INVALID_NUMBER], the "none" of a page
    identifier, and the page a default-constructed [Page] holds. *)
Definition INVALID_NUMBER : PageId := 0.
Definition emptyPage : Page := mkPage INVALID_NUMBER [].

Global Instance Page_inhabited : Inhabited Page := populate emptyPage.

(** ** Frame descriptors *)

(** Modelled from the spec: the class [BufDesc] (buffer.h is not among the
    sources), section 3 "FrameDescriptor": [valid], [refBit], [dirty],
    [pinCount : unsigned], [ownerFile], [pageId]; the field names are the
    ones buffer.cpp uses.  The specification gives the pin count no width,
    so it is a natural number. *)
Record BufDesc := mkBufDesc {
  file : File;
  pageNo : PageId;
  frameNo : FrameId;
  pinCnt : N;
  dirty : bool;
  valid : bool;
  refbit : bool
}.

(** Modelled from the spec: [BufDesc::Clear()], "cleared back to the free
    state": [valid = false], [pinCount = 0], [dirty = false], no owner. *)
Definition BufDesc_Clear (d : BufDesc) : BufDesc :=
  {| file := NULL; pageNo := INVALID_NUMBER; frameNo := frameNo d;
     pinCnt := 0; dirty := false; valid := false; refbit := false |}.

(** Modelled from the spec: [BufDesc::Set(file, pageNo)], "initialize the
    descriptor ([valid=true, pinCount=1, refBit=true, dirty=false])". *)
Definition BufDesc_Set (filePtr : File) (pageNum : PageId) (d : BufDesc) : BufDesc :=
  {| file := filePtr; pageNo := pageNum; frameNo := frameNo d;
     pinCnt := 1; dirty := false; valid := true; refbit := true |}.

(** Modelled from the spec: a default-constructed [BufDesc], "a descriptor
    starts [valid=false] (free)". *)
Definition freeDesc : BufDesc :=
  {| file := NULL; pageNo := INVALID_NUMBER; frameNo := 0;
     pinCnt := 0; dirty := false; valid := false; refbit := false |}.

Global Instance BufDesc_inhabited : Inhabited BufDesc := populate freeDesc.

Definition set_refbit (b : bool) (d : BufDesc) : BufDesc :=
  {| file := file d; pageNo := pageNo d; frameNo := frameNo d;
     pinCnt := pinCnt d; dirty := dirty d; valid := valid d; refbit := b |}.

Definition set_dirty (b : bool) (d : BufDesc) : BufDesc :=
  {| file := file d; pageNo := pageNo d; frameNo := frameNo d;
     pinCnt := pinCnt d; dirty := b; valid := valid d; refbit := refbit d |}.

Definition set_pinCnt (n : N) (d : BufDesc) : BufDesc :=
  {| file := file d; pageNo := pageNo d; frameNo := frameNo d;
     pinCnt := n; dirty := dirty d; valid := valid d; refbit := refbit d |}.

Definition set_frameNo (i : FrameId) (d : BufDesc) : BufDesc :=
  {| file := file d; pageNo := pageNo d; frameNo := i;
     pinCnt := pinCnt d; dirty := dirty d; valid := valid d; refbit := refbit d |}.

Definition set_valid (b : bool) (d : BufDesc) : BufDesc :=
  {| file := file d; pageNo := pageNo d; frameNo := frameNo d;
     pinCnt := pinCnt d; dirty := dirty d; valid := b; refbit := refbit d |}.

(** ** Exceptions and results *)

(** The exceptions buffer.cpp raises, with the arguments it gives them,
    and [FileException] for whatever a [File] member function throws (the
    specification's [IOError]). *)
Inductive Exn :=
  | BufferExceededException
  | PageNotPinnedException (name : File) (pageNum : PageId) (frame : FrameId)
  | PagePinnedException (name : File) (pageNum : PageId) (frame : FrameId)
  | BadBufferException (frame : FrameId) (dirtyIn validIn refbitIn : bool)
  | FileException (code : N).

(** What a call ends in.  [FuelExhausted] stands for a clock scan that is
    still running after [2 * numBufs] steps; by the termination theorem
    below, no pool with at least one frame produces it. *)
Inductive Result (A : Type) :=
  | Ok (a : A)
  | Raise (e : Exn)
  | FuelExhausted.
Arguments Ok {A} a.
Arguments Raise {A} e.
Arguments FuelExhausted {A}.

(** ** The file collaborator *)

(** Modelled from the spec: the class [File] (section 6): [readPage],
    [writePage], [allocatePage], [deletePage], each of which may fail
    (section 7, [IOError]).  [World] is the state of the files; a call
    returns the error code it throws, if any, and the new state. *)
Class FileCollab (World : Type) := {
  file_readPage : File → PageId → World → (N + Page) * World;
  file_writePage : File → Page → World → option N * World;
  file_allocatePage : File → World → (N + Page) * World;
  file_deletePage : File → PageId → World → option N * World
}.

(** ** The manager *)

Section BufMgr.

Context {World : Type} {FS : FileCollab World}.

(** The members of [BufMgr].  [hashTable] is modelled from the spec
    (class [BufHashTbl], "mapping from (file identity, page identifier) to
    frame index", keys unique); [htsize] is the size it was created with;
    [disk] is the state of the files the descriptors point to. *)
Record BufMgr := mkBufMgr {
  numBufs : N;
  bufDescTable : list BufDesc;
  bufPool : list Page;
  hashTable : gmap (File * PageId) FrameId;
  htsize : Z;
  clockHand : FrameId;
  disk : World
}.

Definition Op (A : Type) : Type := BufMgr → Result A * BufMgr.

Definition ret {A} (a : A) : Op A := fun s => (Ok a, s).
Definition throw {A} (e : Exn) : Op A := fun s => (Raise e, s).
Definition bind {A B} (m : Op A) (k : A → Op B) : Op B :=
  fun s =>
    match m s with
    | (Ok a, s') => k a s'
    | (Raise e, s') => (Raise e, s')
    | (FuelExhausted, s') => (FuelExhausted, s')
    end.

Notation "x <~ m ;; k" := (bind m (fun x => k))
  (at level 100, m at next level, right associativity).
Notation "m ;;; k" := (bind m (fun _ => k))
  (at level 100, right associativity).

(** [bufDescTable[i]] and [bufPool[i]].  An index outside the arrays is
    undefined behaviour in the source; here it reads a free descriptor or
    an empty page, and a write to it is dropped. *)
Definition desc (s : BufMgr) (i : FrameId) : BufDesc :=
  bufDescTable s !!! N.to_nat i.

Definition page_at (s : BufMgr) (i : FrameId) : Page :=
  bufPool s !!! N.to_nat i.

Definition with_desc (i : FrameId) (d : BufDesc) (s : BufMgr) : BufMgr :=
  {| numBufs := numBufs s; bufDescTable := <[N.to_nat i := d]> (bufDescTable s);
     bufPool := bufPool s; hashTable := hashTable s; htsize := htsize s;
     clockHand := clockHand s; disk := disk s |}.

Definition with_page (i : FrameId) (p : Page) (s : BufMgr) : BufMgr :=
  {| numBufs := numBufs s; bufDescTable := bufDescTable s;
     bufPool := <[N.to_nat i := p]> (bufPool s); hashTable := hashTable s;
     htsize := htsize s; clockHand := clockHand s; disk := disk s |}.

Definition with_hashTable (h : gmap (File * PageId) FrameId) (s : BufMgr) : BufMgr :=
  {| numBufs := numBufs s; bufDescTable := bufDescTable s;
     bufPool := bufPool s; hashTable := h; htsize := htsize s;
     clockHand := clockHand s; disk := disk s |}.

Definition with_clockHand (h : FrameId) (s : BufMgr) : BufMgr :=
  {| numBufs := numBufs s; bufDescTable := bufDescTable s;
     bufPool := bufPool s; hashTable := hashTable s; htsize := htsize s;
     clockHand := h; disk := disk s |}.

Definition with_disk (w : World) (s : BufMgr) : BufMgr :=
  {| numBufs := numBufs s; bufDescTable := bufDescTable s;
     bufPool := bufPool s; hashTable := hashTable s; htsize := htsize s;
     clockHand := clockHand s; disk := w |}.

(** Modelled from the spec: [BufHashTbl::insert], [remove] and [lookup]
    (section 3, "PageLookupIndex entry": a map with unique keys).  A
    lookup that finds nothing is [None] ([HashNotFoundException] in the
    source, which buffer.cpp catches at every call).  The specification
    says nothing of an insertion at a mapped key or a removal of an
    unmapped one; here the first replaces the mapping and the second does
    nothing; by the residency invariant below, no call gets there as long
    as the file allocates pages that are not in the pool. *)
Definition hashTable_insert (filePtr : File) (pageNum : PageId) (i : FrameId)
    (s : BufMgr) : BufMgr :=
  with_hashTable (<[(filePtr, pageNum) := i]> (hashTable s)) s.

Definition hashTable_remove (filePtr : File) (pageNum : PageId) (s : BufMgr) : BufMgr :=
  with_hashTable (delete (filePtr, pageNum) (hashTable s)) s.

Definition hashTable_lookup (filePtr : File) (pageNum : PageId) (s : BufMgr)
    : option FrameId :=
  hashTable s !! (filePtr, pageNum).

(** *** The constructor *)

(** [(int)(bufs * 1.2)]: the product is taken in binary64 and truncated
    towards zero.  (A product outside the range of [int] is undefined in
    the source; here it is the integer itself.) *)
Definition double_of_uint32 (n : N) : PrimFloat.float :=
  PrimFloat.of_uint63 (Uint63.of_Z (Z.of_N n)).

Definition trunc_double (x : PrimFloat.float) : Z :=
  match FloatOps.Prim2SF x with
  | SpecFloat.S754_finite sgn m e =>
      let a := match e with
               | Zneg p => Z.shiftr (Zpos m) (Zpos p)
               | _ => Z.shiftl (Zpos m) e
               end in
      if sgn then (- a)%Z else a
  | _ => 0%Z
  end.

#[local] Set Warnings "-inexact-float".
Definition one_point_two : PrimFloat.float := 1.2%float.
#[local] Set Warnings "inexact-float".

Definition scaled_bufs (bufs : N) : Z :=
  trunc_double (PrimFloat.mul (double_of_uint32 bufs) one_point_two).

(** Wrap-around of [int] arithmetic (32 bits, two's complement). *)
Definition wrap_int (z : Z) : Z := ((z + 2 ^ 31) mod 2 ^ 32 - 2 ^ 31)%Z.

(** [((x * 2) / 2) + 1] on [int]s; [/] truncates. *)
Definition htsize_of (x : Z) : Z :=
  wrap_int (Z.quot (wrap_int (x * 2)) 2 + 1).

Definition compute_htsize (bufs : N) : Z := htsize_of (scaled_bufs bufs).

Definition frame_ids (n : N) : list FrameId := N.of_nat <$> seq 0 (N.to_nat n).

(** [BufMgr::BufMgr(bufs)], on files in state [w]. *)
Definition BufMgr_new (bufs : N) (w : World) : BufMgr :=
  {| numBufs := bufs;
     bufDescTable :=
       (fun i => set_valid false (set_frameNo i freeDesc)) <$> frame_ids bufs;
     bufPool := replicate (N.to_nat bufs) emptyPage;
     hashTable := ∅;
     htsize := compute_htsize bufs;
     clockHand := wrap32 (bufs + 2 ^ 32 - 1);
     disk := w |}.

(** *** The clock *)

(** [BufMgr::advanceClock].  With [numBufs = 0] the source divides by
    zero; the model leaves the hand where the addition put it. *)
Definition advanceClock (s : BufMgr) : BufMgr :=
  with_clockHand (wrap32 (clockHand s + 1) mod numBufs s) s.

(** One pass through the body of the [while(1)] of [BufMgr::allocBuf]:
    either the loop goes round again with a new [pcount], or the call
    ends. *)
Inductive Scan :=
  | Continue (pcount : N) (s : BufMgr)
  | Finish (r : Result FrameId) (s : BufMgr).

Definition allocBuf_body (pcount : N) (s0 : BufMgr) : Scan :=
  let s := advanceClock s0 in
  let d := desc s (clockHand s) in
  if pcount =? numBufs s then Finish (Raise BufferExceededException) s
  else if negb (valid d) then
    Finish (Ok (clockHand s)) (with_desc (clockHand s) (BufDesc_Clear d) s)
  else if 0 <? pinCnt d then Continue (wrap32 (pcount + 1)) s
  else if refbit d then
    Continue pcount (with_desc (clockHand s) (set_refbit false d) s)
  else
    let '(err, w) :=
      if dirty d then file_writePage (file d) (page_at s (clockHand s)) (disk s)
      else (None, disk s) in
    match err with
    | Some code => Finish (Raise (FileException code)) (with_disk w s)
    | None =>
        let s1 := hashTable_remove (file d) (pageNo d) (with_disk w s) in
        let s2 := with_desc (clockHand s1) (BufDesc_Clear (desc s1 (clockHand s1))) s1 in
        Finish (Ok (clockHand s2)) s2
    end.

(** The loop, cut off after [fuel] passes; the result says how many passes
    ("scan steps") were made. *)
Fixpoint allocBuf_loop (fuel : nat) (pcount : N) (s : BufMgr)
    : option (nat * Result FrameId * BufMgr) :=
  match fuel with
  | O => None
  | S fuel' =>
      match allocBuf_body pcount s with
      | Finish r s' => Some (1%nat, r, s')
      | Continue pcount' s' =>
          match allocBuf_loop fuel' pcount' s' with
          | Some (n, r, s'') => Some (S n, r, s'')
          | None => None
          end
      end
  end.

(** [BufMgr::allocBuf(frame)]: [pcount] starts at 0. *)
Definition allocBuf : Op FrameId := fun s =>
  match allocBuf_loop (2 * N.to_nat (numBufs s)) 0 s with
  | Some (_, r, s') => (r, s')
  | None => (FuelExhausted, s)
  end.

(** *** Calls into the file collaborator *)

Definition File_readPage (filePtr : File) (pageNum : PageId) : Op Page := fun s =>
  match file_readPage filePtr pageNum (disk s) with
  | (inl code, w) => (Raise (FileException code), with_disk w s)
  | (inr p, w) => (Ok p, with_disk w s)
  end.

Definition File_writePage (filePtr : File) (p : Page) : Op unit := fun s =>
  match file_writePage filePtr p (disk s) with
  | (Some code, w) => (Raise (FileException code), with_disk w s)
  | (None, w) => (Ok tt, with_disk w s)
  end.

Definition File_allocatePage (filePtr : File) : Op Page := fun s =>
  match file_allocatePage filePtr (disk s) with
  | (inl code, w) => (Raise (FileException code), with_disk w s)
  | (inr p, w) => (Ok p, with_disk w s)
  end.

Definition File_deletePage (filePtr : File) (pageNum : PageId) : Op unit := fun s =>
  match file_deletePage filePtr pageNum (disk s) with
  | (Some code, w) => (Raise (FileException code), with_disk w s)
  | (None, w) => (Ok tt, with_disk w s)
  end.

Definition modify (f : BufMgr → BufMgr) : Op unit := fun s => (Ok tt, f s).

(** *** The public operations *)

(** [BufMgr::readPage(file, pageNo, page)].  The result is the frame the
    returned [Page*] points into ([&bufPool[i]]). *)
Definition readPage (filePtr : File) (pageNum : PageId) : Op FrameId := fun s =>
  match hashTable_lookup filePtr pageNum s with
  | Some i =>
      (modify (fun s => with_desc i (set_refbit true (desc s i)) s) ;;;
       modify (fun s => with_desc i (set_pinCnt (pinCnt (desc s i) + 1) (desc s i)) s) ;;;
       ret i) s
  | None =>
      (i <~ allocBuf ;;
       p <~ File_readPage filePtr pageNum ;;
       modify (with_page i p) ;;;
       modify (hashTable_insert filePtr pageNum i) ;;;
       modify (fun s => with_desc i (BufDesc_Set filePtr pageNum (desc s i)) s) ;;;
       ret i) s
  end.

(** [BufMgr::unPinPage(file, pageNo, dirty)]. *)
Definition unPinPage (filePtr : File) (pageNum : PageId) (dirtyIn : bool)
    : Op unit := fun s =>
  match hashTable_lookup filePtr pageNum s with
  | Some f =>
      let tmpbuf := desc s f in
      if pinCnt tmpbuf =? 0 then
        throw (PageNotPinnedException filePtr pageNum f) s
      else if 0 <? pinCnt tmpbuf then
        ((if dirtyIn
          then modify (fun s => with_desc f (set_dirty true (desc s f)) s)
          else ret tt) ;;;
         modify (fun s => with_desc f (set_pinCnt (pinCnt (desc s f) - 1) (desc s f)) s)) s
      else ret tt s
  | None => ret tt s
  end.

(** The body of the [for] of [BufMgr::flushFile], at frame [i]. *)
Definition flushFile_body (filePtr : File) (i : FrameId) : Op unit := fun s =>
  let d := desc s i in
  if file d =? filePtr then
    if negb (valid d) then
      throw (BadBufferException i (dirty d) (valid d) (refbit d)) s
    else if 0 <? pinCnt d then
      throw (PagePinnedException filePtr (pageNo d) i) s
    else if dirty d then
      (File_writePage (file d) (page_at s (frameNo d)) ;;;
       modify (fun s => with_desc i (set_dirty false (desc s i)) s) ;;;
       modify (fun s => hashTable_remove filePtr (pageNo (desc s i)) s) ;;;
       modify (fun s => with_desc i (BufDesc_Clear (desc s i)) s)) s
    else ret tt s
  else ret tt s.

Fixpoint for_frames (body : FrameId → Op unit) (frames : list FrameId) : Op unit :=
  match frames with
  | [] => ret tt
  | i :: rest => body i ;;; for_frames body rest
  end.

(** [BufMgr::flushFile(file)]. *)
Definition flushFile (filePtr : File) : Op unit := fun s =>
  for_frames (flushFile_body filePtr) (frame_ids (numBufs s)) s.

(** [BufMgr::allocPage(file, pageNo, page)]: the new page's number and the
    frame the returned [Page*] points into. *)
Definition allocPage (filePtr : File) : Op (PageId * FrameId) :=
  p <~ File_allocatePage filePtr ;;
  f <~ allocBuf ;;
  modify (with_page f p) ;;;
  modify (hashTable_insert filePtr (page_number p) f) ;;;
  modify (fun s => with_desc f (BufDesc_Set filePtr (page_number p) (desc s f)) s) ;;;
  ret (page_number p, f).

(** [BufMgr::disposePage(file, PageNo)].  When the page is not in the pool
    the source only prints a message. *)
Definition disposePage (filePtr : File) (pageNum : PageId) : Op unit := fun s =>
  match hashTable_lookup filePtr pageNum s with
  | Some fid =>
      (modify (fun s => with_desc fid (BufDesc_Clear (desc s fid)) s) ;;;
       modify (hashTable_remove filePtr pageNum) ;;;
       File_deletePage filePtr pageNum) s
  | None => ret tt s
  end.

(** *** The destructor and the diagnostic *)

(** The body of the [for] of [BufMgr::~BufMgr()], at frame [i]. *)
Definition BufMgr_delete_body (i : FrameId) : Op unit := fun s =>
  if dirty (desc s i)
  then File_writePage (file (desc s i)) (page_at s i) s
  else ret tt s.

(** [BufMgr::~BufMgr()], up to the release of the arrays.  An exception
    of [writePage] leaves the destructor, which ends the program; here it
    is the result of the call. *)
Definition BufMgr_delete : Op unit := fun s =>
  for_frames BufMgr_delete_body (frame_ids (numBufs s)) s.

(** The total [BufMgr::printSelf] prints: [validFrames], an [int] that
    starts at 0 and counts the frames with [valid == true]. *)
Definition printSelf_validFrames (s : BufMgr) : Z :=
  fold_left (fun validFrames i =>
               if valid (desc s i) then wrap_int (validFrames + 1) else validFrames)
            (frame_ids (numBufs s)) 0%Z.

(** ** Notions the properties are stated with *)

(** The frame the hand reaches from [h] in one advance. *)
Definition next_hand (n : N) (h : FrameId) : FrameId := wrap32 (h + 1) mod n.

(** The frame under the hand [k] advances after state [s]. *)
Definition hand_after (k : nat) (s : BufMgr) : FrameId :=
  Nat.iter k (next_hand (numBufs s)) (clockHand s).

(** A frame the scan does not pass: free, or unpinned with its reference
    bit clear. *)
Definition stops (d : BufDesc) : bool :=
  negb (valid d) || ((pinCnt d =? 0) && negb (refbit d)).

(** A frame no caller holds. *)
Definition unpinned (d : BufDesc) : bool := negb (valid d) || (pinCnt d =? 0).

(** Two states that differ at most in reference bits the scan cleared and
    in the position of the hand. *)
Record scanned (s s' : BufMgr) : Prop := {
  scanned_numBufs : numBufs s' = numBufs s;
  scanned_pool : bufPool s' = bufPool s;
  scanned_hashTable : hashTable s' = hashTable s;
  scanned_htsize : htsize s' = htsize s;
  scanned_disk : disk s' = disk s;
  scanned_length : length (bufDescTable s') = length (bufDescTable s);
  scanned_desc : ∀ i, desc s' i = desc s i ∨
                       (refbit (desc s i) = true ∧ desc s' i = set_refbit false (desc s i))
}.

(** [k] passes of the loop of [allocBuf], none of which ends the call: the
    [pcount] and the state the next pass starts from. *)
Fixpoint continues (k : nat) (pcount : N) (s : BufMgr) : option (N * BufMgr) :=
  match k with
  | O => Some (pcount, s)
  | S k' =>
      match allocBuf_body pcount s with
      | Continue pcount' s' => continues k' pcount' s'
      | Finish _ _ => None
      end
  end.

(** The arrays have [numBufs] entries and the index points into them. *)
Definition well_sized (s : BufMgr) : Prop :=
  length (bufDescTable s) = N.to_nat (numBufs s) ∧
  length (bufPool s) = N.to_nat (numBufs s) ∧
  ∀ key i, hashTable s !! key = Some i → i < numBufs s.

(** The index and the descriptor table agree on residency. *)
Definition consistent (s : BufMgr) : Prop :=
  well_sized s ∧
  (∀ i, valid (desc s i) = true →
        hashTable s !! (file (desc s i), pageNo (desc s i)) = Some i) ∧
  (∀ filePtr pageNum i, hashTable s !! (filePtr, pageNum) = Some i →
        valid (desc s i) = true ∧ file (desc s i) = filePtr ∧
        pageNo (desc s i) = pageNum).

(** The contract of [File::allocatePage] the manager relies on: the page
    it returns is a new one, so it is not in the pool.  ([allocPage] does
    not check it: it inserts the key without a lookup.) *)
Definition allocates_new (filePtr : File) (s : BufMgr) : Prop :=
  ∀ p w, file_allocatePage filePtr (disk s) = (inr p, w) →
         hashTable s !! (filePtr, page_number p) = None.

(** The states a manager goes through: the constructor's, and the state
    any public operation leaves, whether it returns or raises; [allocPage]
    is called where the file keeps the contract above. *)
Inductive reachable : BufMgr → Prop :=
  | reach_new bufs w : reachable (BufMgr_new bufs w)
  | reach_readPage s filePtr pageNum r s' :
      reachable s → readPage filePtr pageNum s = (r, s') → reachable s'
  | reach_unPinPage s filePtr pageNum dirtyIn r s' :
      reachable s → unPinPage filePtr pageNum dirtyIn s = (r, s') → reachable s'
  | reach_flushFile s filePtr r s' :
      reachable s → flushFile filePtr s = (r, s') → reachable s'
  | reach_allocPage s filePtr r s' :
      reachable s → allocates_new filePtr s →
      allocPage filePtr s = (r, s') → reachable s'
  | reach_disposePage s filePtr pageNum r s' :
      reachable s → disposePage filePtr pageNum s = (r, s') → reachable s'.

(** What [flushFile filePtr] can have done to [s], at most: some dirty
    unpinned frames of the file are written back and free, the rest of the
    pool is as it was. *)
Record partly_flushed (filePtr : File) (s s' : BufMgr) : Prop := {
  pf_numBufs : numBufs s' = numBufs s;
  pf_pool : bufPool s' = bufPool s;
  pf_htsize : htsize s' = htsize s;
  pf_clockHand : clockHand s' = clockHand s;
  pf_length : length (bufDescTable s') = length (bufDescTable s);
  pf_desc : ∀ i, desc s' i = desc s i ∨
                  (file (desc s i) = filePtr ∧ valid (desc s i) = true ∧
                   pinCnt (desc s i) = 0 ∧ dirty (desc s i) = true ∧
                   desc s' i = BufDesc_Clear (desc s i));
  pf_hashTable : ∀ key, hashTable s' !! key = hashTable s !! key ∨
                         hashTable s' !! key = None
}.

(** The page in frame [i] of [s] is still there in [s']: same file, same
    page number, same bytes, same dirty flag, no fewer pins, and the index
    still leads to it. *)
Record page_kept (i : FrameId) (s s' : BufMgr) : Prop := {
  kept_valid : valid (desc s' i) = true;
  kept_file : file (desc s' i) = file (desc s i);
  kept_pageNo : pageNo (desc s' i) = pageNo (desc s i);
  kept_dirty : dirty (desc s' i) = dirty (desc s i);
  kept_pinCnt : pinCnt (desc s i) ≤ pinCnt (desc s' i);
  kept_page : page_at s' i = page_at s i;
  kept_index : hashTable s' !! (file (desc s i), pageNo (desc s i)) = Some i
}.

(** Free frames are as [Clear] leaves them, and every frame knows its own
    number. *)
Definition tidy (s : BufMgr) : Prop :=
  (∀ i, valid (desc s i) = false →
        pinCnt (desc s i) = 0 ∧ dirty (desc s i) = false ∧ file (desc s i) = NULL) ∧
  (∀ i, i < numBufs s → frameNo (desc s i) = i).

(** The frames the destructor writes back, in the order it meets them. *)
Definition dirty_frames (s : BufMgr) : list FrameId :=
  filter (λ i, dirty (desc s i) = true) (frame_ids (numBufs s)).

(** Writing back the frames [frames], one after the other. *)
Definition write_back (frames : list FrameId) : Op unit :=
  for_frames (fun i s => File_writePage (file (desc s i)) (page_at s i) s) frames.

(** A frame that holds a page a caller has pinned. *)
Definition pinned (d : BufDesc) : Prop := valid d = true ∧ 0 < pinCnt d.

(** The frames below [k] that [flushFile filePtr] writes back and frees, in
    the order it meets them: those of the file that are dirty in [s]. *)
Definition flushed (filePtr : File) (k : N) (s : BufMgr) : list FrameId :=
  filter (λ i, file (desc s i) = filePtr ∧ dirty (desc s i) = true) (frame_ids k).

(** The calls of [writePage] that [flushFile filePtr] makes for the frames
    [frames], one after the other on the files [w], each with the page
    [bufPool[bufDescTable[i].frameNo]] as it is in [s]: the error of the
    first call that fails, if any, and the files afterwards. *)
Fixpoint flush_writes (filePtr : File) (s : BufMgr) (frames : list FrameId)
    (w : World) : option N * World :=
  match frames with
  | [] => (None, w)
  | i :: rest =>
      match file_writePage filePtr (page_at s (frameNo (desc s i))) w with
      | (Some code, w') => (Some code, w')
      | (None, w') => flush_writes filePtr s rest w'
      end
  end.

(** [s'] is what the loop of [flushFile filePtr] has made of [s] when it
    has gone through the frames below [k] without raising: these frames, as
    far as they are the file's, were valid and unpinned; the dirty ones
    among them are written back in order, cleared and out of the index;
    every other frame, every other index entry, the pool and the hand are
    as they were. *)
Record flushed_upto (filePtr : File) (k : N) (s s' : BufMgr) : Prop := {
  fu_numBufs : numBufs s' = numBufs s;
  fu_pool : bufPool s' = bufPool s;
  fu_htsize : htsize s' = htsize s;
  fu_clockHand : clockHand s' = clockHand s;
  fu_length : length (bufDescTable s') = length (bufDescTable s);
  fu_ready : ∀ i, i < k → file (desc s i) = filePtr →
                  valid (desc s i) = true ∧ pinCnt (desc s i) = 0;
  fu_freed : ∀ i, i < k → file (desc s i) = filePtr → dirty (desc s i) = true →
                  desc s' i = BufDesc_Clear (desc s i) ∧
                  hashTable s' !! (filePtr, pageNo (desc s i)) = None;
  fu_kept : ∀ i, ¬ (i < k ∧ file (desc s i) = filePtr ∧ dirty (desc s i) = true) →
                 desc s' i = desc s i;
  fu_index : ∀ key,
      (∀ i, i < k → file (desc s i) = filePtr → dirty (desc s i) = true →
            key ≠ (filePtr, pageNo (desc s i))) →
      hashTable s' !! key = hashTable s !! key;
  fu_disk : flush_writes filePtr s (flushed filePtr k s) (disk s) = (None, disk s')
}.

(** How the loop of [flushFile filePtr] has stopped at frame [k] with the
    exception [e], having come there with the state [s1]: the frame is the
    file's and it is free, or pinned, or dirty with a write-back that
    failed; [s'] is the state the exception leaves. *)
Definition flush_stopped (filePtr : File) (k : FrameId) (e : Exn)
    (s s1 s' : BufMgr) : Prop :=
  file (desc s k) = filePtr ∧
  ((valid (desc s k) = false ∧
    e = BadBufferException k (dirty (desc s k)) false (refbit (desc s k)) ∧
    s' = s1) ∨
   (valid (desc s k) = true ∧ 0 < pinCnt (desc s k) ∧
    e = PagePinnedException filePtr (pageNo (desc s k)) k ∧
    s' = s1) ∨
   (valid (desc s k) = true ∧ pinCnt (desc s k) = 0 ∧ dirty (desc s k) = true ∧
    ∃ code w,
      file_writePage filePtr (page_at s (frameNo (desc s k))) (disk s1) = (Some code, w) ∧
      e = FileException code ∧ s' = with_disk w s1)).

End BufMgr.

Arguments BufMgr World : clear implicits.

(** ** A file collaborator to run the manager on *)

(** Files as a table of the pages they hold.  Reading or deleting a page
    the file does not hold fails (code 1); a read-only world refuses
    writes and allocations (code 2); a new page gets the next number of a
    counter. *)
Record SimDisk := mkSimDisk {
  stored : gmap (File * PageId) Page;
  next_page : PageId;
  read_only : bool
}.

Definition sim_read (f : File) (n : PageId) (w : SimDisk) : (N + Page) * SimDisk :=
  match stored w !! (f, n) with
  | Some p => (inr p, w)
  | None => (inl 1, w)
  end.

Definition sim_write (f : File) (p : Page) (w : SimDisk) : option N * SimDisk :=
  if read_only w then (Some 2, w)
  else (None, mkSimDisk (<[(f, page_number p) := p]> (stored w)) (next_page w) (read_only w)).

Definition sim_allocate (f : File) (w : SimDisk) : (N + Page) * SimDisk :=
  if read_only w then (inl 2, w)
  else
    let p := mkPage (next_page w) [] in
    (inr p, mkSimDisk (<[(f, next_page w) := p]> (stored w)) (next_page w + 1) (read_only w)).

Definition sim_delete (f : File) (n : PageId) (w : SimDisk) : option N * SimDisk :=
  match stored w !! (f, n) with
  | Some _ => (None, mkSimDisk (delete (f, n) (stored w)) (next_page w) (read_only w))
  | None => (Some 1, w)
  end.

Global Instance SimDisk_collab : FileCollab SimDisk := {
  file_readPage := sim_read;
  file_writePage := sim_write;
  file_allocatePage := sim_allocate;
  file_deletePage := sim_delete
}.

(** *** Runs of the manager on it *)

(** A file (at address 1) with pages 1, 2 and 3. *)
Definition page_of (n : PageId) (b : Byte.byte) : Page := mkPage n [b; b].

Definition disk0 : SimDisk :=
  {| stored := list_to_map [((1, 1), page_of 1 Byte.x0a);
                            ((1, 2), page_of 2 Byte.x0b);
                            ((1, 3), page_of 3 Byte.x0c)];
     next_page := 4;
     read_only := false |}.

(** The state a call leaves. *)
Definition after {A} (m : Op A) (s : BufMgr SimDisk) : BufMgr SimDisk := (m s).2.

(** Two frames: page 1 in frame 0, unpinned and dirty; page 2 in frame 1,
    pinned; the hand on frame 1. *)
Definition st_victim : BufMgr SimDisk :=
  after (unPinPage 1 1 true)
    (after (readPage 1 2) (after (readPage 1 1) (BufMgr_new 2 disk0))).

(** [st_victim] after [allocBuf] has evicted page 1. *)
Definition st_evicted : BufMgr SimDisk := after allocBuf st_victim.

(** [st_victim] with the files turned read-only. *)
Definition st_victim_ro : BufMgr SimDisk :=
  with_disk {| stored := stored (disk st_victim); next_page := 4; read_only := true |}
    st_victim.

(** [st_victim] after a call of [allocPage]. *)
Definition st_allocated : BufMgr SimDisk := after (allocPage 1) st_victim.

(** One frame, holding page 1, unpinned and clean. *)
Definition st_clean : BufMgr SimDisk :=
  after (unPinPage 1 1 false) (after (readPage 1 1) (BufMgr_new 1 disk0)).

(** One frame, holding page 1, pinned once and dirty. *)
Definition st_pinned_dirty : BufMgr SimDisk :=
  after (unPinPage 1 1 true)
    (after (readPage 1 1) (after (readPage 1 1) (BufMgr_new 1 disk0))).

(** Two frames, pages 1 and 2, both pinned. *)
Definition st_full : BufMgr SimDisk :=
  after (readPage 1 2) (after (readPage 1 1) (BufMgr_new 2 disk0)).

(** One frame, holding page 1, unpinned and dirty. *)
Definition st_dirty : BufMgr SimDisk :=
  after (unPinPage 1 1 true) (after (readPage 1 1) (BufMgr_new 1 disk0)).

(** Two frames, both unpinned: page 1 in frame 0, dirty; page 2 in frame
    1, clean. *)
Definition st_mixed : BufMgr SimDisk := after (unPinPage 1 2 false) st_victim.



(** * Properties *)

Section Properties.

Context {World : Type} {FS : FileCollab World}.

Implicit Types (s : BufMgr World) (d : BufDesc) (i j f fid : FrameId).
Implicit Types (filePtr : File) (pageNum : PageId).

(** ** Reading and writing the arrays *)

Lemma desc_with_desc_ne s i j d : i ≠ j → desc (with_desc i d s) j = desc s j.
Proof.
  intros Hne. unfold desc, with_desc; simpl.
  apply list_lookup_total_insert_ne. lia.
Qed.

Lemma desc_with_desc_eq s i d :
  (N.to_nat i < length (bufDescTable s))%nat → desc (with_desc i d s) i = d.
Proof.
  intros Hlt. unfold desc, with_desc; simpl.
  by apply list_lookup_total_insert_eq.
Qed.

Lemma desc_out_of_range s i :
  (length (bufDescTable s) ≤ N.to_nat i)%nat → desc s i = freeDesc.
Proof.
  intros Hge. unfold desc. rewrite list_lookup_total_alt.
  by rewrite lookup_ge_None_2.
Qed.

Lemma valid_in_range s i :
  valid (desc s i) = true → (N.to_nat i < length (bufDescTable s))%nat.
Proof.
  intros Hv. destruct (decide (N.to_nat i < length (bufDescTable s))%nat) as [|Hge]; [done|].
  rewrite desc_out_of_range in Hv by lia. discriminate.
Qed.

Lemma pinned_in_range s i :
  0 < pinCnt (desc s i) → (N.to_nat i < length (bufDescTable s))%nat.
Proof.
  intros Hp. destruct (decide (N.to_nat i < length (bufDescTable s))%nat) as [|Hge]; [done|].
  rewrite desc_out_of_range in Hp by lia. simpl in Hp. lia.
Qed.

Lemma length_with_desc s i d :
  length (bufDescTable (with_desc i d s)) = length (bufDescTable s).
Proof. unfold with_desc; simpl. apply length_insert. Qed.

(** ** The clock scan *)

Lemma scanned_refl s : scanned s s.
Proof. split; auto. Qed.

Lemma scanned_trans s1 s2 s3 : scanned s1 s2 → scanned s2 s3 → scanned s1 s3.
Proof.
  intros [] []. split; try congruence.
  intros i. destruct (scanned_desc0 i) as [E1|[R1 E1]],
    (scanned_desc1 i) as [E2|[R2 E2]]; rewrite E2; rewrite E1 in *; auto.
Qed.

Lemma scanned_advanceClock s : scanned s (advanceClock s).
Proof. split; auto. Qed.

Lemma scanned_fields s s' i :
  scanned s s' →
  file (desc s' i) = file (desc s i) ∧ pageNo (desc s' i) = pageNo (desc s i) ∧
  frameNo (desc s' i) = frameNo (desc s i) ∧ pinCnt (desc s' i) = pinCnt (desc s i) ∧
  dirty (desc s' i) = dirty (desc s i) ∧ valid (desc s' i) = valid (desc s i).
Proof.
  intros H. destruct (scanned_desc _ _ H i) as [E|[_ E]]; rewrite E;
    repeat split; reflexivity.
Qed.

Lemma scanned_stops s s' i : scanned s s' → stops (desc s i) = true → stops (desc s' i) = true.
Proof.
  intros H. destruct (scanned_desc _ _ H i) as [E|[_ E]]; rewrite E; [done|].
  unfold stops; simpl. destruct (valid (desc s i)), (pinCnt (desc s i) =? 0); simpl; auto.
Qed.

Lemma scanned_unpinned s s' i : scanned s s' → unpinned (desc s' i) = unpinned (desc s i).
Proof.
  intros H. destruct (scanned_fields s s' i H) as (_ & _ & _ & Hp & _ & Hv).
  unfold unpinned. by rewrite Hp, Hv.
Qed.

Lemma scanned_clear_refbit s h :
  valid (desc s h) = true → refbit (desc s h) = true →
  scanned s (with_desc h (set_refbit false (desc s h)) s).
Proof.
  intros Hv Hr. split; try done.
  - apply length_with_desc.
  - intros i. destruct (decide (h = i)) as [<-|Hne].
    + right. split; [done|]. apply desc_with_desc_eq. by apply valid_in_range.
    + left. by rewrite desc_with_desc_ne.
Qed.

(** What a pass that goes round again has done. *)
Lemma allocBuf_body_Continue pcount s pcount' s' :
  allocBuf_body pcount s = Continue pcount' s' →
  let h := clockHand (advanceClock s) in
  pcount ≠ numBufs s ∧ clockHand s' = h ∧ valid (desc s h) = true ∧ scanned s s' ∧
  ((0 < pinCnt (desc s h) ∧ pcount' = wrap32 (pcount + 1) ∧ s' = advanceClock s) ∨
   (pinCnt (desc s h) = 0 ∧ refbit (desc s h) = true ∧ pcount' = pcount ∧
    s' = with_desc h (set_refbit false (desc s h)) (advanceClock s))).
Proof.
  unfold allocBuf_body. cbv zeta.
  set (s1 := advanceClock s). set (h := clockHand s1).
  change (desc s1 h) with (desc s h).
  change (numBufs s1) with (numBufs s).
  destruct (N.eqb_spec pcount (numBufs s)) as [|Hpc]; [discriminate|].
  destruct (valid (desc s h)) eqn:Hv; cbn [negb]; [|discriminate].
  destruct (N.ltb_spec 0 (pinCnt (desc s h))) as [Hp|Hp].
  - intros [= <- <-]. do 3 (split; [done|]). split; [apply scanned_advanceClock|].
    left; auto.
  - destruct (refbit (desc s h)) eqn:Hr.
    + intros [= <- <-]. do 3 (split; [done|]). split.
      * apply scanned_trans with s1; [apply scanned_advanceClock|].
        by apply (scanned_clear_refbit s1 h).
      * right. repeat split; auto. lia.
    + destruct (if dirty (desc s h) then _ else _) as [[code|] w]; discriminate.
Qed.

(** What a pass that ends the call returns. *)
Lemma allocBuf_body_Finish pcount s r s' :
  allocBuf_body pcount s = Finish r s' →
  let h := clockHand (advanceClock s) in
  clockHand s' = h ∧ numBufs s' = numBufs s ∧
  (r = Ok h ∨ r = Raise BufferExceededException ∨ ∃ code, r = Raise (FileException code)).
Proof.
  unfold allocBuf_body. cbv zeta.
  set (s1 := advanceClock s). set (h := clockHand s1).
  destruct (pcount =? numBufs s1); [intros [= <- <-]; auto|].
  destruct (valid (desc s1 h)); cbn [negb]; [|intros [= <- <-]; auto].
  destruct (0 <? pinCnt (desc s1 h)); [discriminate|].
  destruct (refbit (desc s1 h)); [discriminate|].
  destruct (if dirty (desc s1 h) then _ else _) as [[code|] w];
    intros [= <- <-]; simpl; eauto 6.
Qed.

(** ** Termination of the scan *)

Lemma allocBuf_loop_S fuel pcount s :
  allocBuf_loop (S fuel) pcount s =
  match allocBuf_body pcount s with
  | Finish r s' => Some (1%nat, r, s')
  | Continue pcount' s' =>
      match allocBuf_loop fuel pcount' s' with
      | Some (n, r, s'') => Some (S n, r, s'')
      | None => None
      end
  end.
Proof. reflexivity. Qed.

Lemma allocBuf_loop_mono fuel fuel' pcount s x :
  allocBuf_loop fuel pcount s = Some x → (fuel ≤ fuel')%nat →
  allocBuf_loop fuel' pcount s = Some x.
Proof.
  revert fuel' pcount s x. induction fuel as [|fuel IH]; intros fuel' pcount s x; [discriminate|].
  destruct fuel' as [|fuel']; [lia|]. simpl.
  destruct (allocBuf_body pcount s) as [pcount' s'|r s']; [|done].
  destruct (allocBuf_loop fuel pcount' s') as [[[n r] s'']|] eqn:E; [|discriminate].
  intros H Hle. rewrite (IH fuel' _ _ _ E) by lia. done.
Qed.

Lemma allocBuf_loop_steps fuel pcount s n r s' :
  allocBuf_loop fuel pcount s = Some (n, r, s') → (1 ≤ n ≤ fuel)%nat.
Proof.
  revert pcount s n. induction fuel as [|fuel IH]; intros pcount s n; [discriminate|].
  simpl. destruct (allocBuf_body pcount s) as [pcount' s1|r1 s1].
  - destruct (allocBuf_loop fuel pcount' s1) as [[[n1 r2] s2]|] eqn:E; [|discriminate].
    intros [= <- <- <-]. apply IH in E. lia.
  - intros [= <- <- <-]. lia.
Qed.

Lemma hand_after_step k s s' :
  numBufs s' = numBufs s → clockHand s' = clockHand (advanceClock s) →
  hand_after k s' = hand_after (S k) s.
Proof.
  intros Hn Hh. unfold hand_after. rewrite Nat.iter_succ_r, Hn, Hh. done.
Qed.

Lemma hand_after_add k s :
  clockHand s < numBufs s → numBufs s < 2 ^ 32 →
  hand_after k s = (clockHand s + N.of_nat k) mod numBufs s.
Proof.
  intros Hh Hn. unfold hand_after. induction k as [|k IH].
  - simpl. rewrite N.add_0_r. symmetry. by apply N.mod_small.
  - rewrite Nat.iter_succ, IH. unfold next_hand, wrap32.
    assert ((clockHand s + N.of_nat k) mod numBufs s < numBufs s)
      by (apply N.mod_lt; lia).
    rewrite (N.mod_small (_ + 1) (2 ^ 32)) by lia.
    rewrite N.Div0.add_mod_idemp_l. f_equal. lia.
Qed.

Lemma hand_after_cycle s :
  clockHand s < numBufs s → numBufs s < 2 ^ 32 →
  hand_after (N.to_nat (numBufs s)) s = clockHand s.
Proof.
  intros Hh Hn. rewrite hand_after_add by done.
  rewrite N2Nat.id.
  replace (clockHand s + numBufs s) with (clockHand s + 1 * numBufs s) by lia.
  rewrite N.Div0.mod_add. by apply N.mod_small.
Qed.

Lemma advanceClock_lt s : numBufs s ≠ 0 → clockHand (advanceClock s) < numBufs s.
Proof. intros Hn. simpl. by apply N.mod_lt. Qed.

(** A frame [k + 1] advances ahead at which the scan stops ends the call
    within [k + 1] passes. *)
Lemma stop_ahead k pcount s :
  stops (desc s (hand_after (S k) s)) = true →
  is_Some (allocBuf_loop (S k) pcount s).
Proof.
  revert pcount s. induction k as [|k IH]; intros pcount s Hst;
    rewrite allocBuf_loop_S;
    destruct (allocBuf_body pcount s) as [pcount' s'|r s'] eqn:Hb; try by eexists.
  - apply allocBuf_body_Continue in Hb as (_ & _ & Hv & _ & Hcase).
    change (hand_after 1 s) with (clockHand (advanceClock s)) in Hst.
    set (h := clockHand (advanceClock s)) in *.
    unfold stops in Hst. rewrite Hv in Hst. cbn [negb orb] in Hst.
    apply andb_true_iff in Hst as [Hz Hr']. apply N.eqb_eq in Hz.
    apply negb_true_iff in Hr'.
    destruct Hcase as [(Hp & _)|(_ & Hr & _)]; [lia | congruence].
  - apply allocBuf_body_Continue in Hb as (_ & Hh & _ & Hsc & _).
    destruct (IH pcount' s') as [[[n r] s''] E].
    + rewrite (hand_after_step (S k) s s') by (by destruct Hsc).
      by apply (scanned_stops s s').
    + rewrite E. by eexists.
Qed.

(** An unpinned frame [k + 1] advances ahead ends the call at the latest
    one sweep after the hand has reached it. *)
Lemma unpinned_ahead k pcount s :
  numBufs s ≠ 0 → numBufs s < 2 ^ 32 →
  unpinned (desc s (hand_after (S k) s)) = true →
  is_Some (allocBuf_loop (S k + N.to_nat (numBufs s)) pcount s).
Proof.
  intros Hn0 Hn. revert pcount s Hn0 Hn.
  induction k as [|k IH]; intros pcount s Hn0 Hn Hun;
    change (S ?a + ?b)%nat with (S (a + b)); rewrite allocBuf_loop_S;
    destruct (allocBuf_body pcount s) as [pcount' s'|r s'] eqn:Hb; try by eexists.
  - apply allocBuf_body_Continue in Hb as (_ & Hh & Hv & Hsc & Hcase).
    change (hand_after 1 s) with (clockHand (advanceClock s)) in Hun.
    set (h := clockHand (advanceClock s)) in *.
    unfold unpinned in Hun. rewrite Hv in Hun. cbn [negb orb] in Hun.
    apply N.eqb_eq in Hun.
    destruct Hcase as [(Hp & _)|(_ & Hr & _ & Hs')]; [lia|].
    assert (Hst : stops (desc s' h) = true).
    { rewrite Hs', desc_with_desc_eq by (by apply (valid_in_range (advanceClock s) h)).
      unfold stops. simpl. rewrite Hv. fold h. by rewrite Hun. }
    assert (Hns : numBufs s' = numBufs s) by (by destruct Hsc).
    assert (Hlt : clockHand s' < numBufs s')
      by (rewrite Hh, Hns; by apply advanceClock_lt).
    destruct (N.to_nat (numBufs s)) as [|m] eqn:Em; [lia|].
    destruct (stop_ahead m pcount' s') as [[[n r] s''] E].
    + assert (Hn' : numBufs s' < 2 ^ 32) by (by rewrite Hns).
      rewrite <- Em, <- Hns, hand_after_cycle by done.
      by rewrite Hh.
    + rewrite Nat.add_0_l, E. by eexists.
  - apply allocBuf_body_Continue in Hb as (_ & Hh & _ & Hsc & _).
    assert (Hns : numBufs s' = numBufs s) by (by destruct Hsc).
    destruct (IH pcount' s') as [[[n r] s''] E].
    + by rewrite Hns.
    + by rewrite Hns.
    + rewrite (hand_after_step (S k) s s') by done.
      by rewrite (scanned_unpinned s s').
    + rewrite Hns in E. rewrite E. by eexists.
Qed.

(** A pool whose next [k] frames are all pinned, with [pcount] already
    at [numBufs - k]: the call ends after [k + 1] passes. *)
Lemma pinned_ahead k pcount s :
  N.of_nat k + pcount = numBufs s → numBufs s < 2 ^ 32 →
  (∀ a : nat, (1 ≤ a ≤ k)%nat → unpinned (desc s (hand_after a s)) = false) →
  is_Some (allocBuf_loop (S k) pcount s).
Proof.
  revert pcount s. induction k as [|k IH]; intros pcount s Hk Hn Hall;
    rewrite allocBuf_loop_S;
    destruct (allocBuf_body pcount s) as [pcount' s'|r s'] eqn:Hb; try by eexists.
  - apply allocBuf_body_Continue in Hb as (Hpc & _). lia.
  - apply allocBuf_body_Continue in Hb as (_ & Hh & Hv & Hsc & Hcase).
    assert (Hns : numBufs s' = numBufs s) by (by destruct Hsc).
    pose proof (Hall 1%nat ltac:(lia)) as H1.
    change (hand_after 1 s) with (clockHand (advanceClock s)) in H1.
    set (h := clockHand (advanceClock s)) in *.
    unfold unpinned in H1. rewrite Hv in H1. cbn [negb orb] in H1.
    apply N.eqb_neq in H1.
    destruct Hcase as [(_ & Hpc' & _)|(Hp & _)]; [|done].
    destruct (IH pcount' s') as [[[n r] s''] E].
    + rewrite Hpc', Hns. unfold wrap32. rewrite N.mod_small; lia.
    + by rewrite Hns.
    + intros a Ha. rewrite (hand_after_step a s s') by done.
      rewrite (scanned_unpinned s s') by done. apply Hall. lia.
    + rewrite E. by eexists.
Qed.

Lemma bounded_search (P : nat → bool) (n : nat) :
  (∃ a : nat, (1 ≤ a ≤ n)%nat ∧ P a = true) ∨
  (∀ a : nat, (1 ≤ a ≤ n)%nat → P a = false).
Proof.
  induction n as [|n [(a & Ha & HP)|IH]].
  - right. intros a Ha. lia.
  - left. exists a. split; [lia|done].
  - destruct (P (S n)) eqn:E.
    + left. exists (S n). split; [lia|done].
    + right. intros a Ha. destruct (decide (a = S n)) as [->|]; [done|].
      apply IH. lia.
Qed.

(** With at least one frame, [2 * numBufs] passes are enough. *)
Lemma allocBuf_loop_enough s :
  0 < numBufs s → numBufs s < 2 ^ 32 →
  is_Some (allocBuf_loop (2 * N.to_nat (numBufs s)) 0 s).
Proof.
  intros Hn0 Hn.
  destruct (bounded_search (fun a => unpinned (desc s (hand_after a s)))
              (N.to_nat (numBufs s))) as [(a & Ha & Hun)|Hall].
  - destruct a as [|k]; [lia|].
    destruct (unpinned_ahead k 0 s) as [x E]; [lia|done|done|].
    exists x. apply (allocBuf_loop_mono _ _ _ _ _ E). lia.
  - destruct (pinned_ahead (N.to_nat (numBufs s)) 0 s) as [x E]; [lia|done|done|].
    exists x. apply (allocBuf_loop_mono _ _ _ _ _ E). lia.
Qed.

(** How a call can end. *)
Lemma allocBuf_loop_outcome fuel pcount s n r s' :
  allocBuf_loop fuel pcount s = Some (n, r, s') →
  numBufs s' = numBufs s ∧
  ((r = Ok (clockHand s') ∧ (numBufs s ≠ 0 → clockHand s' < numBufs s)) ∨
   r = Raise BufferExceededException ∨ ∃ code, r = Raise (FileException code)).
Proof.
  revert pcount s n. induction fuel as [|fuel IH]; intros pcount s n; [discriminate|].
  rewrite allocBuf_loop_S.
  destruct (allocBuf_body pcount s) as [pcount' s1|r1 s1] eqn:Hb.
  - destruct (allocBuf_loop fuel pcount' s1) as [[[n1 r2] s2]|] eqn:E; [|discriminate].
    intros [= <- <- <-]. apply IH in E as [Hn E].
    apply allocBuf_body_Continue in Hb as (_ & _ & _ & Hsc & _).
    destruct Hsc as [Hns _ _ _ _ _ _]. rewrite Hns in Hn, E. done.
  - intros [= <- <- <-]. apply allocBuf_body_Finish in Hb as (Hh & Hn & Hr).
    split; [done|]. destruct Hr as [->|Hr]; [left|by right].
    rewrite Hh. split; [done|]. apply advanceClock_lt.
Qed.

(** ** The pass that ends the call *)

Lemma allocBuf_body_Finish_cases pcount s r s' :
  allocBuf_body pcount s = Finish r s' →
  let s1 := advanceClock s in
  let h := clockHand s1 in
  let d := desc s h in
  (pcount = numBufs s ∧ r = Raise BufferExceededException ∧ s' = s1) ∨
  (pcount ≠ numBufs s ∧ valid d = false ∧ r = Ok h ∧
   s' = with_desc h (BufDesc_Clear d) s1) ∨
  (pcount ≠ numBufs s ∧ valid d = true ∧ pinCnt d = 0 ∧ refbit d = false ∧
   ((dirty d = false ∧ r = Ok h ∧
     s' = with_desc h (BufDesc_Clear d) (hashTable_remove (file d) (pageNo d) s1)) ∨
    (dirty d = true ∧ ∃ w,
       file_writePage (file d) (page_at s h) (disk s) = (None, w) ∧ r = Ok h ∧
       s' = with_desc h (BufDesc_Clear d)
              (hashTable_remove (file d) (pageNo d) (with_disk w s1))) ∨
    (dirty d = true ∧ ∃ code w,
       file_writePage (file d) (page_at s h) (disk s) = (Some code, w) ∧
       r = Raise (FileException code) ∧ s' = with_disk w s1))).
Proof.
  unfold allocBuf_body. cbv zeta.
  set (s1 := advanceClock s). set (h := clockHand s1).
  change (desc s1 h) with (desc s h). change (numBufs s1) with (numBufs s).
  change (page_at s1 h) with (page_at s h). change (disk s1) with (disk s).
  destruct (N.eqb_spec pcount (numBufs s)) as [Hpc|Hpc];
    [intros [= <- <-]; by left|].
  destruct (valid (desc s h)) eqn:Hv; cbn [negb];
    [|intros [= <- <-]; right; by left].
  destruct (N.ltb_spec 0 (pinCnt (desc s h))) as [Hp|Hp]; [discriminate|].
  destruct (refbit (desc s h)) eqn:Hr; [discriminate|].
  assert (Hp0 : pinCnt (desc s h) = 0) by lia.
  destruct (dirty (desc s h)) eqn:Hd.
  - destruct (file_writePage _ _ _) as [[code|] w] eqn:Hw; intros [= <- <-];
      right; right; do 4 (split; [done|]); right.
    + right. split; [done|]. by exists code, w.
    + left. split; [done|]. by exists w.
  - intros [= <- <-]. right; right. do 4 (split; [done|]). left.
    split; [done|]. split; [done|].
    unfold with_disk, hashTable_remove, with_hashTable, with_desc; simpl. done.
Qed.

(** A call that ends after [n] passes went round [n - 1] times, which
    changed nothing but reference bits, and ended in the last pass. *)
Lemma allocBuf_loop_last fuel pcount s n r s' :
  allocBuf_loop fuel pcount s = Some (n, r, s') →
  ∃ pcount' sc, continues (pred n) pcount s = Some (pcount', sc) ∧
                scanned s sc ∧ allocBuf_body pcount' sc = Finish r s'.
Proof.
  revert pcount s n. induction fuel as [|fuel IH]; intros pcount s n; [discriminate|].
  rewrite allocBuf_loop_S.
  destruct (allocBuf_body pcount s) as [pcount1 s1|r1 s1] eqn:Hb.
  - destruct (allocBuf_loop fuel pcount1 s1) as [[[n1 r2] s2]|] eqn:E; [|discriminate].
    intros [= <- <- <-].
    pose proof (allocBuf_loop_steps _ _ _ _ _ _ E) as Hn1.
    apply IH in E as (pcc & sc & Hc & Hsc & Hfin).
    exists pcc, sc. split; [|split; [|done]].
    + destruct n1 as [|n1]; [lia|]. simpl in *. by rewrite Hb.
    + apply allocBuf_body_Continue in Hb as (_ & _ & _ & Hsc1 & _).
      by apply scanned_trans with s1.
  - intros [= <- <- <-]. exists pcount, s. simpl. auto using scanned_refl.
Qed.

Lemma allocBuf_loop_of_allocBuf s r s' :
  allocBuf s = (r, s') → r ≠ FuelExhausted →
  ∃ n, allocBuf_loop (2 * N.to_nat (numBufs s)) 0 s = Some (n, r, s').
Proof.
  unfold allocBuf.
  destruct (allocBuf_loop _ 0 s) as [[[n r1] s1]|]; intros [= <- <-] Hr; [by exists n|done].
Qed.

Lemma scanned_page_at s sc i : scanned s sc → page_at sc i = page_at s i.
Proof. intros [_ Hp _ _ _ _ _]. unfold page_at. by rewrite Hp. Qed.

Lemma BufDesc_Clear_frameNo d d' : frameNo d = frameNo d' → BufDesc_Clear d = BufDesc_Clear d'.
Proof. unfold BufDesc_Clear. by intros ->. Qed.

(** The frame a call returns was free, or held an unpinned page, when the
    call was made. *)
Lemma allocBuf_loop_Ok_unpinned fuel pcount s n f s' :
  allocBuf_loop fuel pcount s = Some (n, Ok f, s') → unpinned (desc s f) = true.
Proof.
  intros H. apply allocBuf_loop_last in H as (pcc & sc & _ & Hsc & Hfin).
  rewrite <- (scanned_unpinned s sc) by done.
  apply allocBuf_body_Finish_cases in Hfin. cbv zeta in Hfin. unfold unpinned.
  set (h := clockHand (advanceClock sc)) in *.
  destruct Hfin as [(_ & [=] & _)|[(_ & Hv & [= ->] & _)|(_ & Hv & Hp & _ & Hcase)]].
  - by rewrite Hv.
  - destruct Hcase as [(_ & [= ->] & _)|[(_ & w & _ & [= ->] & _)|(_ & c & w & _ & [=] & _)]];
      rewrite Hp; simpl; by rewrite orb_true_r.
Qed.

(** C1. No eviction under pin: whatever the number of passes, the frame a
    call of [allocBuf] returns did not hold a pinned page at the start of
    the pass that claimed it (state [sc], reached after [n - 1] passes that
    went round), and its pin count then was the one it had when the call
    was made; where free frames have pin count 0, the pin count of the
    returned frame was 0. *)
Theorem no_eviction_under_pin fuel s n f s' :
  allocBuf_loop fuel 0 s = Some (n, Ok f, s') →
  ∃ pcount sc,
    continues (pred n) 0 s = Some (pcount, sc) ∧
    allocBuf_body pcount sc = Finish (Ok f) s' ∧
    ¬ (valid (desc sc f) = true ∧ 0 < pinCnt (desc sc f)) ∧
    valid (desc sc f) = valid (desc s f) ∧
    pinCnt (desc sc f) = pinCnt (desc s f) ∧
    ((valid (desc s f) = false → pinCnt (desc s f) = 0) → pinCnt (desc sc f) = 0).
Proof.
  intros H. pose proof (allocBuf_loop_Ok_unpinned _ _ _ _ _ _ H) as Hun.
  apply allocBuf_loop_last in H as (pcc & sc & Hc & Hsc & Hfin).
  exists pcc, sc. split; [done|]. split; [done|].
  destruct (scanned_fields s sc f Hsc) as (_ & _ & _ & Hp & _ & Hv).
  rewrite Hv, Hp. unfold unpinned in Hun.
  split; [|split; [done|split; [done|]]].
  - intros [Hv' Hp']. rewrite Hv' in Hun. simpl in Hun.
    apply N.eqb_eq in Hun. lia.
  - intros Hfree. destruct (valid (desc s f)); simpl in Hun.
    + by apply N.eqb_eq in Hun.
    + by apply Hfree.
Qed.

(** C3, as amended.  With at least one frame, a call of [allocBuf] ends
    within [2 * numBufs] passes of its loop, whatever the pins, reference
    bits and dirty flags; it ends by returning a frame, by raising
    [BufferExceededException], or by passing on the exception of the
    [writePage] of a dirty frame. *)
Theorem allocBuf_terminates s :
  0 < numBufs s → numBufs s < 2 ^ 32 →
  ∃ n r s',
    allocBuf_loop (2 * N.to_nat (numBufs s)) 0 s = Some (n, r, s') ∧
    (1 ≤ n ≤ 2 * N.to_nat (numBufs s))%nat ∧
    allocBuf s = (r, s') ∧
    ((∃ f, r = Ok f ∧ f < numBufs s) ∨
     r = Raise BufferExceededException ∨
     (∃ code f w, r = Raise (FileException code) ∧
        valid (desc s f) = true ∧ pinCnt (desc s f) = 0 ∧ dirty (desc s f) = true ∧
        file_writePage (file (desc s f)) (page_at s f) (disk s) = (Some code, w))).
Proof.
  intros Hn0 Hn.
  destruct (allocBuf_loop_enough s Hn0 Hn) as [[[n r] s'] E].
  exists n, r, s'. split; [done|].
  split; [by apply allocBuf_loop_steps in E|].
  split; [unfold allocBuf; by rewrite E|].
  pose proof (allocBuf_loop_outcome _ _ _ _ _ _ E) as [Hns Hout].
  destruct Hout as [[-> Hlt]|[->|[code ->]]]; [left|by right; left|right; right].
  - eexists. split; [done|]. apply Hlt. lia.
  - apply allocBuf_loop_last in E as (pcc & sc & _ & Hsc & Hfin).
    apply allocBuf_body_Finish_cases in Hfin. cbv zeta in Hfin.
    destruct Hfin as [(_ & [=] & _)|[(_ & _ & [=] & _)|(_ & Hv & Hp & _ & Hcase)]].
    destruct Hcase as [(_ & [=] & _)|[(_ & w & _ & [=] & _)|(Hd & c & w & Hw & [= ->] & _)]].
    set (h := clockHand (advanceClock sc)) in *.
    destruct (scanned_fields s sc h Hsc) as (Hf & _ & _ & Hp' & Hd' & Hv').
    exists c, h, w. rewrite <- Hv', <- Hp', <- Hd', <- Hf.
    rewrite <- (scanned_page_at s sc) by done.
    destruct Hsc as [_ _ _ _ <- _ _]. done.
Qed.

(** C7. When [allocBuf] returns a frame that held a page (a victim), the
    page was unpinned; if it was dirty, [writePage] of the owning file was
    called with the frame's bytes and succeeded, and if it was clean no
    file was touched; the index entry of the page is gone, the descriptor
    is clear, the pool still holds the bytes.  The write comes first: when
    it fails, the call raises with the index entry and the descriptor of
    the victim still in place. *)
Theorem victim_written_back s r s' :
  allocBuf s = (r, s') →
  (∀ f, r = Ok f → valid (desc s f) = true →
     let d := desc s f in
     pinCnt d = 0 ∧
     (if dirty d
      then file_writePage (file d) (page_at s f) (disk s) = (None, disk s')
      else disk s' = disk s) ∧
     hashTable s' = delete (file d, pageNo d) (hashTable s) ∧
     desc s' f = BufDesc_Clear d ∧
     bufPool s' = bufPool s) ∧
  (∀ code, r = Raise (FileException code) →
     ∃ f, let d := desc s f in
       valid d = true ∧ pinCnt d = 0 ∧ dirty d = true ∧
       (file_writePage (file d) (page_at s f) (disk s)).1 = Some code ∧
       hashTable s' = hashTable s ∧
       valid (desc s' f) = true ∧ dirty (desc s' f) = true ∧
       file (desc s' f) = file d ∧ pageNo (desc s' f) = pageNo d).
Proof.
  intros H. split.
  - intros f -> Hv. cbv zeta.
    apply allocBuf_loop_of_allocBuf in H as [n E]; [|done].
    apply allocBuf_loop_last in E as (pcc & sc & _ & Hsc & Hfin).
    apply allocBuf_body_Finish_cases in Hfin. cbv zeta in Hfin.
    set (h := clockHand (advanceClock sc)) in *.
    assert (Hin : valid (desc sc f) = true).
    { destruct (scanned_fields s sc f Hsc) as (_ & _ & _ & _ & _ & ->). done. }
    destruct Hfin as [(_ & [=] & _)|[(_ & Hv' & [= <-] & _)|(_ & _ & Hp & _ & Hcase)]];
      [congruence|].
    assert (Hf : h = f).
    { destruct Hcase as [(_ & [= ->] & _)|[(_ & w & _ & [= ->] & _)|(_ & c & w & _ & [=] & _)]];
        done. }
    rewrite Hf in *. clear Hf h.
    destruct (scanned_fields s sc f Hsc) as (Hfile & Hpage & Hfr & Hpin & Hdir & _).
    pose proof (scanned_page_at s sc f Hsc) as Hpg.
    pose proof (valid_in_range sc f Hin) as Hrange.
    destruct Hsc as [_ Hpool Hht _ Hdisk _ _].
    split; [congruence|].
    rewrite <- Hdir, <- Hfile, <- Hpage, <- Hpg, <- Hdisk, <- Hht, <- Hpool.
    destruct Hcase as [(Hd & _ & ->)|[(Hd & w & Hw & _ & ->)|(_ & c & w & _ & [=] & _)]];
      rewrite Hd.
    + split; [done|]. split; [done|]. split; [|done].
      rewrite desc_with_desc_eq by done. by apply BufDesc_Clear_frameNo.
    + split; [done|]. split; [done|]. split; [|done].
      rewrite desc_with_desc_eq by done. by apply BufDesc_Clear_frameNo.
  - intros code ->.
    apply allocBuf_loop_of_allocBuf in H as [n E]; [|done].
    apply allocBuf_loop_last in E as (pcc & sc & _ & Hsc & Hfin).
    apply allocBuf_body_Finish_cases in Hfin. cbv zeta in Hfin.
    set (h := clockHand (advanceClock sc)) in *.
    destruct Hfin as [(_ & [=] & _)|[(_ & _ & [=] & _)|(_ & Hv & Hp & _ & Hcase)]].
    destruct Hcase as [(_ & [=] & _)|[(_ & w & _ & [=] & _)|(Hd & c & w & Hw & [= <-] & ->)]].
    exists h. cbv zeta.
    destruct (scanned_fields s sc h Hsc) as (Hfile & Hpage & _ & Hpin & Hdir & Hval).
    pose proof (scanned_page_at s sc h Hsc) as Hpg.
    destruct Hsc as [_ _ Hht _ Hdisk _ _].
    rewrite <- Hval, <- Hpin, <- Hdir, <- Hfile, <- Hpage, <- Hpg, <- Hdisk, <- Hht.
    rewrite Hw. done.
Qed.

(** ** What [allocBuf] leaves behind *)

Lemma allocBuf_FuelExhausted s s' : allocBuf s = (FuelExhausted, s') → s' = s.
Proof.
  unfold allocBuf. destruct (allocBuf_loop _ 0 s) as [[[n r] s1]|] eqn:E.
  - intros [= -> ->]. apply allocBuf_loop_outcome in E as [_ [[[=] _]|[[=]|[c [=]]]]].
  - by intros [= <-].
Qed.

Lemma allocBuf_Ok_frame s i s' :
  allocBuf s = (Ok i, s') → i < numBufs s ∧ numBufs s' = numBufs s ∧ clockHand s' = i.
Proof.
  intros H. apply allocBuf_loop_of_allocBuf in H as [n E]; [|done].
  assert (numBufs s ≠ 0).
  { intros Hz. rewrite Hz in E. discriminate. }
  apply allocBuf_loop_outcome in E as [Hn [[[= ->] Hlt]|[[=]|[c [=]]]]]. auto.
Qed.

(** The state [allocBuf] leaves, from the one ([sc]) its last pass
    started in. *)
Lemma allocBuf_effect s r s' :
  allocBuf s = (r, s') → r ≠ FuelExhausted →
  ∃ sc, scanned s sc ∧
    let s1 := advanceClock sc in
    let h := clockHand s1 in
    let d := desc sc h in
    ((r = Raise BufferExceededException ∧ s' = s1) ∨
     (∃ code w, r = Raise (FileException code) ∧ s' = with_disk w s1) ∨
     (r = Ok h ∧ valid d = false ∧ s' = with_desc h (BufDesc_Clear d) s1) ∨
     (r = Ok h ∧ valid d = true ∧ pinCnt d = 0 ∧ ∃ w,
        s' = with_desc h (BufDesc_Clear d)
               (hashTable_remove (file d) (pageNo d) (with_disk w s1)))).
Proof.
  intros H Hr. apply allocBuf_loop_of_allocBuf in H as [n E]; [|done].
  apply allocBuf_loop_last in E as (pcc & sc & _ & Hsc & Hfin).
  exists sc. split; [done|].
  apply allocBuf_body_Finish_cases in Hfin. cbv zeta in Hfin. cbv zeta.
  destruct Hfin as [(_ & -> & ->)|[(_ & Hv & -> & ->)|(_ & Hv & Hp & _ & Hcase)]];
    [by left|right; right; by left|].
  destruct Hcase as [(_ & -> & ->)|[(_ & w & _ & -> & ->)|(_ & c & w & _ & -> & ->)]].
  - right; right; right. do 3 (split; [done|]). by exists (disk sc).
  - right; right; right. do 3 (split; [done|]). by exists w.
  - right; left. by exists c, w.
Qed.

(** ** [unPinPage] *)

(** C6. [unPinPage] on a page that is not in the pool returns and changes
    nothing; on a page in the pool with pin count 0 it raises
    [PageNotPinnedException] and changes nothing; otherwise it returns,
    the pin count is one less, the dirty flag is set when [dirtyIn] is
    true and is as it was when [dirtyIn] is false, and nothing else
    changes. *)
Theorem unPinPage_spec filePtr pageNum dirtyIn s :
  match hashTable s !! (filePtr, pageNum) with
  | None => unPinPage filePtr pageNum dirtyIn s = (Ok tt, s)
  | Some f =>
      if pinCnt (desc s f) =? 0
      then unPinPage filePtr pageNum dirtyIn s =
           (Raise (PageNotPinnedException filePtr pageNum f), s)
      else ∃ s',
        unPinPage filePtr pageNum dirtyIn s = (Ok tt, s') ∧
        pinCnt (desc s' f) + 1 = pinCnt (desc s f) ∧
        dirty (desc s' f) = (if dirtyIn then true else dirty (desc s f)) ∧
        desc s' f = set_pinCnt (pinCnt (desc s f) - 1)
                      (set_dirty (dirty (desc s' f)) (desc s f)) ∧
        (∀ j, j ≠ f → desc s' j = desc s j) ∧
        numBufs s' = numBufs s ∧ bufPool s' = bufPool s ∧
        hashTable s' = hashTable s ∧ clockHand s' = clockHand s ∧
        disk s' = disk s
  end.
Proof.
  unfold unPinPage, hashTable_lookup.
  destruct (hashTable s !! (filePtr, pageNum)) as [f|]; [|done].
  destruct (N.eqb_spec (pinCnt (desc s f)) 0) as [Hz|Hnz]; [done|].
  assert (Hp : 0 < pinCnt (desc s f)) by lia.
  pose proof (pinned_in_range s f Hp) as Hin.
  apply N.ltb_lt in Hp. rewrite Hp.
  destruct dirtyIn; unfold bind, modify, ret; eexists; (split; [reflexivity|]).
  - rewrite !desc_with_desc_eq by (rewrite ?length_with_desc; done).
    simpl. repeat split; try done; [lia|].
    intros j Hj. by rewrite !desc_with_desc_ne.
  - rewrite !desc_with_desc_eq by done.
    simpl. repeat split; try done; [lia|].
    intros j Hj. by rewrite !desc_with_desc_ne.
Qed.

(** ** [disposePage] *)

(** C10. [disposePage] on a page in the pool asks no pin count and no
    dirty flag: whatever they are, the descriptor is cleared, the index
    entry removed, and [deletePage] of the file is called, on the files as
    they were (nothing is written back); the call ends as [deletePage]
    does. *)
Theorem disposePage_ignores_pins filePtr pageNum s fid :
  hashTable s !! (filePtr, pageNum) = Some fid →
  (N.to_nat fid < length (bufDescTable s))%nat →
  ∃ r s',
    disposePage filePtr pageNum s = (r, s') ∧
    r = match (file_deletePage filePtr pageNum (disk s)).1 with
        | None => Ok tt
        | Some code => Raise (FileException code)
        end ∧
    disk s' = (file_deletePage filePtr pageNum (disk s)).2 ∧
    desc s' fid = BufDesc_Clear (desc s fid) ∧
    valid (desc s' fid) = false ∧ pinCnt (desc s' fid) = 0 ∧
    dirty (desc s' fid) = false ∧
    hashTable s' = delete (filePtr, pageNum) (hashTable s) ∧
    (∀ j, j ≠ fid → desc s' j = desc s j) ∧
    bufPool s' = bufPool s ∧ clockHand s' = clockHand s.
Proof.
  intros Hl Hin. unfold disposePage, hashTable_lookup. rewrite Hl.
  unfold bind, modify, File_deletePage. cbn [disk hashTable_remove with_hashTable with_desc].
  destruct (file_deletePage filePtr pageNum (disk s)) as [[code|] w] eqn:Hdel;
    eexists _, _; (split; [reflexivity|]); cbn [fst snd];
    (split; [reflexivity|]); (split; [reflexivity|]);
    change (desc (with_disk w ?x) ?i) with (desc x i);
    change (desc (hashTable_remove ?a ?b ?x) ?i) with (desc x i);
    rewrite desc_with_desc_eq by done;
    repeat split; try done; intros j Hj; by rewrite desc_with_desc_ne.
Qed.

Lemma allocBuf_sizes s r s' :
  allocBuf s = (r, s') →
  numBufs s' = numBufs s ∧ bufPool s' = bufPool s ∧
  length (bufDescTable s') = length (bufDescTable s).
Proof.
  intros H. destruct r as [i|e|]; [| |by apply allocBuf_FuelExhausted in H as ->];
    (apply allocBuf_effect in H as (sc & [Hn Hp _ _ _ Hl _] & Hcase); [|done]);
    cbv zeta in Hcase;
    destruct Hcase as [(_ & ->)|[(c & w & _ & ->)|[(_ & _ & ->)|(_ & _ & _ & w & ->)]]];
    rewrite ?length_with_desc; simpl; auto.
Qed.

Lemma allocBuf_Ok_cleared s i s' :
  length (bufDescTable s) = N.to_nat (numBufs s) →
  allocBuf s = (Ok i, s') →
  desc s' i = BufDesc_Clear (desc s i) ∧ ∀ j, j ≠ i → desc s' j = desc s j ∨
    (refbit (desc s j) = true ∧ desc s' j = set_refbit false (desc s j)).
Proof.
  intros Hlen H. pose proof (allocBuf_Ok_frame _ _ _ H) as (Hlt & _ & _).
  apply allocBuf_effect in H as (sc & Hsc & Hcase); [|done].
  cbv zeta in Hcase. set (h := clockHand (advanceClock sc)) in *.
  assert (Hh : h = i ∧ s' = with_desc h (BufDesc_Clear (desc sc h))
                        (with_hashTable (hashTable s') (with_disk (disk s') (advanceClock sc)))).
  { destruct Hcase as [([=] & _)|[(c & w & [=] & _)|[([= ->] & _ & ->)|([= ->] & _ & _ & w & ->)]]];
      done. }
  destruct Hh as [<- Hs']. rewrite Hs'.
  destruct (scanned_fields s sc h Hsc) as (_ & _ & Hfr & _).
  pose proof (scanned_desc _ _ Hsc) as Hd.
  destruct Hsc as [_ _ _ _ _ Hl _].
  split.
  - rewrite desc_with_desc_eq; [by apply BufDesc_Clear_frameNo|].
    simpl. rewrite Hl, Hlen. lia.
  - intros j Hj. rewrite desc_with_desc_ne by done. apply Hd.
Qed.

(** ** [readPage] *)

(** C5. A [readPage] that returns has pinned the page's frame exactly
    once.  On a hit the pin count is one more than before, the reference
    bit is set, and nothing else changes: no file is touched.  On a miss
    the frame comes from [allocBuf] with pin count 0, holds the page the
    file read, is entered in the index, and its descriptor is [valid],
    with pin count 1, reference bit set and not dirty. *)
Theorem readPage_pins_once filePtr pageNum s i s' :
  well_sized s →
  readPage filePtr pageNum s = (Ok i, s') →
  match hashTable s !! (filePtr, pageNum) with
  | Some j =>
      i = j ∧
      pinCnt (desc s' i) = pinCnt (desc s i) + 1 ∧
      refbit (desc s' i) = true ∧
      desc s' i = set_pinCnt (pinCnt (desc s i) + 1) (set_refbit true (desc s i)) ∧
      (∀ j', j' ≠ i → desc s' j' = desc s j') ∧
      disk s' = disk s ∧ bufPool s' = bufPool s ∧
      hashTable s' = hashTable s ∧ clockHand s' = clockHand s
  | None =>
      ∃ s1 p,
        allocBuf s = (Ok i, s1) ∧
        file_readPage filePtr pageNum (disk s1) = (inr p, disk s') ∧
        pinCnt (desc s1 i) = 0 ∧
        pinCnt (desc s' i) = 1 ∧ valid (desc s' i) = true ∧
        refbit (desc s' i) = true ∧ dirty (desc s' i) = false ∧
        file (desc s' i) = filePtr ∧ pageNo (desc s' i) = pageNum ∧
        page_at s' i = p ∧
        hashTable s' = <[(filePtr, pageNum) := i]> (hashTable s1)
  end.
Proof.
  intros (Hlen & Hpool & Hidx). unfold readPage, hashTable_lookup.
  destruct (hashTable s !! (filePtr, pageNum)) as [j|] eqn:Hl.
  - unfold bind, modify, ret. intros [= <- <-].
    assert (Hin : (N.to_nat j < length (bufDescTable s))%nat).
    { apply Hidx in Hl. lia. }
    rewrite !desc_with_desc_eq by (rewrite ?length_with_desc; done).
    simpl. repeat split; try done.
    intros j' Hj'. by rewrite !desc_with_desc_ne.
  - unfold bind at 1. destruct (allocBuf s) as [[i0| |] s1] eqn:Ha; try discriminate.
    unfold bind at 1, File_readPage.
    destruct (file_readPage filePtr pageNum (disk s1)) as [[code|p] w] eqn:Hrd;
      [discriminate|].
    unfold bind, modify, ret. intros [= <- <-].
    pose proof (allocBuf_Ok_frame _ _ _ Ha) as (Hlt & Hn1 & _).
    pose proof (allocBuf_sizes _ _ _ Ha) as (_ & Hp1 & Hl1).
    pose proof (allocBuf_Ok_cleared _ _ _ Hlen Ha) as [Hcl _].
    exists s1, p. split; [done|]. split; [done|].
    split; [by rewrite Hcl|].
    assert (desc (with_desc i0 (BufDesc_Set filePtr pageNum
                   (desc (hashTable_insert filePtr pageNum i0
                            (with_page i0 p (with_disk w s1))) i0))
                   (hashTable_insert filePtr pageNum i0
                      (with_page i0 p (with_disk w s1)))) i0
            = BufDesc_Set filePtr pageNum (desc s1 i0)) as ->.
    { apply desc_with_desc_eq. simpl. rewrite Hl1, Hlen. lia. }
    simpl. repeat split; try done.
    unfold page_at; simpl. apply list_lookup_total_insert_eq.
    rewrite Hp1, Hpool. lia.
Qed.

(** ** Residency: the index and the descriptors agree *)

Lemma consistent_ext s s' :
  consistent s →
  numBufs s' = numBufs s →
  length (bufDescTable s') = length (bufDescTable s) →
  length (bufPool s') = length (bufPool s) →
  hashTable s' = hashTable s →
  (∀ i, valid (desc s' i) = valid (desc s i) ∧
        (valid (desc s i) = true →
         file (desc s' i) = file (desc s i) ∧ pageNo (desc s' i) = pageNo (desc s i))) →
  consistent s'.
Proof.
  intros ((Hl & Hp & Hidx) & Hb & Hc) Hn Hl' Hp' Hh Hd.
  split; [|split].
  - repeat split; rewrite ?Hn, ?Hl', ?Hp', ?Hh; done.
  - intros i Hv. destruct (Hd i) as [Hv' Hf]. rewrite Hv' in Hv.
    destruct (Hf Hv) as [-> ->]. rewrite Hh. by apply Hb.
  - intros filePtr pageNum i Hi. rewrite Hh in Hi.
    destruct (Hc _ _ _ Hi) as (Hv & Hf & Hpn). destruct (Hd i) as [Hv' Hfp].
    destruct (Hfp Hv) as [-> ->]. by rewrite Hv'.
Qed.

Lemma consistent_scanned s sc : consistent s → scanned s sc → consistent sc.
Proof.
  intros Hc Hsc. apply (consistent_ext s); try by destruct Hsc.
  - destruct Hsc as [_ -> _ _ _ _ _]. done.
  - intros i. destruct (scanned_fields s sc i Hsc) as (-> & -> & _ & _ & _ & ->). done.
Qed.

Lemma consistent_free s h d' :
  consistent s → valid (desc s h) = false → valid d' = false →
  consistent (with_desc h d' s).
Proof.
  intros Hc Hv Hv'. apply (consistent_ext s); try done.
  - apply length_with_desc.
  - intros i. destruct (decide (h = i)) as [<-|Hne].
    + destruct (decide (N.to_nat h < length (bufDescTable s))%nat).
      * rewrite desc_with_desc_eq by done. rewrite Hv, Hv'. done.
      * unfold desc, with_desc; simpl. rewrite list_insert_ge by lia. done.
    + rewrite desc_with_desc_ne by done. done.
Qed.

Lemma consistent_evict s h d' :
  consistent s → valid (desc s h) = true → valid d' = false →
  consistent (with_desc h d' (hashTable_remove (file (desc s h)) (pageNo (desc s h)) s)).
Proof.
  intros ((Hl & Hp & Hidx) & Hb & Hc) Hv Hv'.
  pose proof (valid_in_range s h Hv) as Hin.
  assert (Hd : ∀ i, desc (with_desc h d' (hashTable_remove (file (desc s h))
                       (pageNo (desc s h)) s)) i = if decide (h = i) then d' else desc s i).
  { intros i. destruct (decide (h = i)) as [<-|Hne].
    - by apply desc_with_desc_eq.
    - by rewrite desc_with_desc_ne. }
  split; [|split].
  - split; [|split]; simpl.
    + by rewrite length_insert.
    + done.
    + intros k i Hi. apply lookup_delete_Some in Hi as [_ Hi]. by apply (Hidx k).
  - intros i. rewrite Hd. destruct (decide (h = i)) as [<-|Hne]; [congruence|].
    intros Hvi. simpl. rewrite lookup_delete_ne; [by apply Hb|].
    intros Heq. apply Hne. pose proof (Hb h Hv) as Hh. pose proof (Hb i Hvi) as Hi.
    rewrite Heq in Hh. congruence.
  - intros filePtr pageNum i Hi. simpl in Hi.
    apply lookup_delete_Some in Hi as [Hk Hi].
    destruct (Hc _ _ _ Hi) as (Hvi & Hf & Hpn).
    rewrite Hd. destruct (decide (h = i)) as [<-|Hne]; [|done].
    exfalso. apply Hk. by rewrite <- Hf, <- Hpn.
Qed.

Lemma consistent_install s i filePtr pageNum p d' :
  consistent s → i < numBufs s → valid (desc s i) = false →
  hashTable s !! (filePtr, pageNum) = None →
  valid d' = true → file d' = filePtr → pageNo d' = pageNum →
  consistent (with_desc i d' (hashTable_insert filePtr pageNum i (with_page i p s))).
Proof.
  intros ((Hl & Hp & Hidx) & Hb & Hc) Hlt Hv Hnone Hv' Hf' Hp'.
  assert (Hin : (N.to_nat i < length (bufDescTable s))%nat) by lia.
  assert (Hd : ∀ k, desc (with_desc i d' (hashTable_insert filePtr pageNum i
                       (with_page i p s))) k = if decide (i = k) then d' else desc s k).
  { intros k. destruct (decide (i = k)) as [<-|Hne].
    - by apply desc_with_desc_eq.
    - by rewrite desc_with_desc_ne. }
  split; [|split].
  - split; [|split]; simpl.
    + by rewrite length_insert.
    + by rewrite length_insert.
    + intros k j Hj. apply lookup_insert_Some in Hj as [[_ <-]|[_ Hj]]; [done|].
      by apply (Hidx k).
  - intros k. rewrite Hd. destruct (decide (i = k)) as [<-|Hne]; simpl.
    + intros _. rewrite Hf', Hp'. apply lookup_insert_eq.
    + intros Hvk. rewrite lookup_insert_ne; [by apply Hb|].
      intros Heq. pose proof (Hb k Hvk) as Hk. rewrite <- Heq in Hk. congruence.
  - intros f' p' k Hk. simpl in Hk. rewrite Hd.
    apply lookup_insert_Some in Hk as [[[= <- <-] <-]|[Hne Hk]].
    + rewrite decide_True by done. done.
    + destruct (Hc _ _ _ Hk) as (Hvk & Hfk & Hpk).
      destruct (decide (i = k)) as [<-|_]; [congruence|done].
Qed.

Lemma consistent_with_disk s w : consistent s → consistent (with_disk w s).
Proof. intros Hc. by apply (consistent_ext s). Qed.

Lemma consistent_advanceClock s : consistent s → consistent (advanceClock s).
Proof. intros Hc. by apply (consistent_ext s). Qed.

Lemma consistent_BufMgr_new bufs (w : World) : consistent (BufMgr_new bufs w).
Proof.
  assert (Hv : ∀ i, valid (desc (BufMgr_new bufs w) i) = false).
  { intros i. unfold desc, BufMgr_new; simpl.
    rewrite list_lookup_total_alt, list_lookup_fmap.
    by destruct (frame_ids bufs !! N.to_nat i). }
  split; [|split].
  - split; [|split]; simpl.
    + unfold frame_ids. by rewrite !length_fmap, length_seq.
    + by rewrite length_replicate.
    + intros k i Hi. by rewrite lookup_empty in Hi.
  - intros i. by rewrite Hv.
  - intros filePtr pageNum i Hi. simpl in Hi. by rewrite lookup_empty in Hi.
Qed.

Lemma allocBuf_consistent s r s' :
  consistent s → allocBuf s = (r, s') → consistent s'.
Proof.
  intros Hc H. destruct r as [i|e|]; [| |by apply allocBuf_FuelExhausted in H as ->];
    (apply allocBuf_effect in H as (sc & Hsc & Hcase); [|done]);
    pose proof (consistent_scanned _ _ Hc Hsc) as Hcc;
    cbv zeta in Hcase;
    destruct Hcase as [(_ & ->)|[(c & w & _ & ->)|[(_ & Hv & ->)|(_ & Hv & _ & w & ->)]]];
    auto using consistent_advanceClock, consistent_with_disk.
  all: try (apply consistent_free; [by apply consistent_advanceClock|done|done]).
  all: apply (consistent_evict (with_disk w (advanceClock sc)));
    [by apply consistent_with_disk, consistent_advanceClock|done|done].
Qed.

Lemma allocBuf_hashTable s r s' key :
  allocBuf s = (r, s') → hashTable s !! key = None → hashTable s' !! key = None.
Proof.
  intros H Hnone. destruct r as [i|e|]; [| |by apply allocBuf_FuelExhausted in H as ->];
    (apply allocBuf_effect in H as (sc & [_ _ Hh _ _ _ _] & Hcase); [|done]);
    cbv zeta in Hcase;
    destruct Hcase as [(_ & ->)|[(c & w & _ & ->)|[(_ & Hv & ->)|(_ & Hv & _ & w & ->)]]];
    simpl; rewrite ?Hh; try done.
  all: apply lookup_delete_None; by right.
Qed.

Lemma consistent_update s i d' :
  consistent s → valid d' = valid (desc s i) → file d' = file (desc s i) →
  pageNo d' = pageNo (desc s i) → consistent (with_desc i d' s).
Proof.
  intros Hc Hv Hf Hp. apply (consistent_ext s); try done.
  - apply length_with_desc.
  - intros k. destruct (decide (i = k)) as [<-|Hne].
    + destruct (decide (N.to_nat i < length (bufDescTable s))%nat).
      * rewrite desc_with_desc_eq by done. by rewrite Hv, Hf, Hp.
      * unfold desc, with_desc; simpl. rewrite list_insert_ge by lia. done.
    + rewrite desc_with_desc_ne by done. done.
Qed.

Lemma readPage_consistent filePtr pageNum s r s' :
  consistent s → readPage filePtr pageNum s = (r, s') → consistent s'.
Proof.
  intros Hc. unfold readPage, hashTable_lookup.
  destruct (hashTable s !! (filePtr, pageNum)) as [j|] eqn:Hl.
  - unfold bind, modify, ret. intros [= <- <-].
    apply consistent_update; [by apply consistent_update|..];
      destruct (decide (N.to_nat j < length (bufDescTable s))%nat);
      first [ by rewrite desc_with_desc_eq
            | unfold desc, with_desc; simpl; by rewrite list_insert_ge by lia ].
  - unfold bind at 1. destruct (allocBuf s) as [[i| |] s1] eqn:Ha;
      try (intros [= <- <-]; by eapply allocBuf_consistent).
    pose proof (allocBuf_consistent _ _ _ Hc Ha) as Hc1.
    unfold bind at 1, File_readPage.
    destruct (file_readPage filePtr pageNum (disk s1)) as [[code|p] w] eqn:Hrd.
    + intros [= <- <-]. by apply consistent_with_disk.
    + unfold bind, modify, ret. intros [= <- <-].
      pose proof (allocBuf_Ok_frame _ _ _ Ha) as (Hlt & Hn1 & _).
      destruct Hc as ((Hlen & _) & _).
      pose proof (allocBuf_Ok_cleared _ _ _ Hlen Ha) as [Hcl _].
      apply (consistent_install (with_disk w s1));
        [ by apply consistent_with_disk
        | simpl; by rewrite Hn1
        | change (desc (with_disk w s1) i) with (desc s1 i); by rewrite Hcl
        | simpl; by apply (allocBuf_hashTable s (Ok i) s1)
        | done | done | done ].
Qed.

Lemma unPinPage_consistent filePtr pageNum dirtyIn s r s' :
  consistent s → unPinPage filePtr pageNum dirtyIn s = (r, s') → consistent s'.
Proof.
  intros Hc. unfold unPinPage, hashTable_lookup.
  destruct (hashTable s !! (filePtr, pageNum)) as [f|]; [|by intros [= <- <-]].
  destruct (pinCnt (desc s f) =? 0); [by intros [= <- <-]|].
  destruct (N.ltb_spec 0 (pinCnt (desc s f))) as [Hp|]; [|by intros [= <- <-]].
  pose proof (pinned_in_range s f Hp) as Hin.
  destruct dirtyIn; unfold bind, modify, ret; intros [= <- <-].
  - apply consistent_update; [by apply consistent_update|..];
      by rewrite desc_with_desc_eq.
  - by apply consistent_update.
Qed.

Lemma flushFile_body_consistent filePtr i s r s' :
  consistent s → flushFile_body filePtr i s = (r, s') → consistent s'.
Proof.
  intros Hc. unfold flushFile_body. cbv zeta.
  destruct (N.eqb_spec (file (desc s i)) filePtr) as [Hf|]; [|by intros [= <- <-]].
  destruct (valid (desc s i)) eqn:Hv; cbn [negb]; [|by intros [= <- <-]].
  destruct (0 <? pinCnt (desc s i)); [by intros [= <- <-]|].
  destruct (dirty (desc s i)); [|by intros [= <- <-]].
  unfold bind at 1, File_writePage.
  destruct (file_writePage _ _ (disk s)) as [[code|] w].
  - intros [= <- <-]. by apply consistent_with_disk.
  - unfold bind, modify. intros [= <- <-].
    pose proof (valid_in_range s i Hv) as Hin.
    set (s1 := with_desc i (set_dirty false (desc (with_disk w s) i)) (with_disk w s)).
    assert (Hd1 : desc s1 i = set_dirty false (desc s i))
      by (by apply desc_with_desc_eq).
    assert (Hc1 : consistent s1).
    { apply consistent_update; [by apply consistent_with_disk|done..]. }
    replace filePtr with (file (desc s1 i)) by (by rewrite Hd1).
    apply (consistent_evict s1); [done|by rewrite Hd1|done].
Qed.

Lemma for_frames_ind (P : BufMgr World → BufMgr World → Prop)
    (body : FrameId → Op unit) :
  (∀ s, P s s) → (∀ s1 s2 s3, P s1 s2 → P s2 s3 → P s1 s3) →
  (∀ i s r s', body i s = (r, s') → P s s') →
  ∀ frames s r s', for_frames body frames s = (r, s') → P s s'.
Proof.
  intros Hrefl Htrans Hbody frames.
  induction frames as [|i frames IH]; intros s r s'; simpl.
  - unfold ret. by intros [= <- <-].
  - unfold bind. destruct (body i s) as [[[]|e|] s1] eqn:Hb.
    + intros H. apply Htrans with s1; [by apply (Hbody i s (Ok tt))|by apply (IH _ r)].
    + intros [= <- <-]. by apply (Hbody i s (Raise e)).
    + intros [= <- <-]. by apply (Hbody i s FuelExhausted).
Qed.

Lemma flushFile_consistent filePtr s r s' :
  consistent s → flushFile filePtr s = (r, s') → consistent s'.
Proof.
  intros Hc H. unfold flushFile in H. revert Hc.
  apply (for_frames_ind (fun s s' => consistent s → consistent s')
           (flushFile_body filePtr)) with (frames := frame_ids (numBufs s)) (r := r);
    [auto|auto| |done].
  intros i s0 r0 s0' Hb Hc0. by apply (flushFile_body_consistent filePtr i s0 r0).
Qed.

Lemma allocPage_consistent filePtr s r s' :
  consistent s → allocates_new filePtr s →
  allocPage filePtr s = (r, s') → consistent s'.
Proof.
  intros Hc Hnew. unfold allocPage. unfold bind at 1, File_allocatePage.
  destruct (file_allocatePage filePtr (disk s)) as [[code|p] w] eqn:Hal.
  - intros [= <- <-]. by apply consistent_with_disk.
  - pose proof (consistent_with_disk s w Hc) as Hcw.
    unfold bind at 1.
    destruct (allocBuf (with_disk w s)) as [[f| |] s1] eqn:Ha;
      try (intros [= <- <-]; by eapply allocBuf_consistent).
    pose proof (allocBuf_consistent _ _ _ Hcw Ha) as Hc1.
    unfold bind, modify, ret. intros [= <- <-].
    pose proof (allocBuf_Ok_frame _ _ _ Ha) as (Hlt & Hn1 & _).
    destruct Hcw as ((Hlen & _) & _).
    pose proof (allocBuf_Ok_cleared _ _ _ Hlen Ha) as [Hcl _].
    apply (consistent_install s1);
      [ done | by rewrite Hn1 | by rewrite Hcl
      | apply (allocBuf_hashTable (with_disk w s) (Ok f) s1); [done|]; simpl;
        by apply (Hnew p w)
      | done | done | done ].
Qed.

Lemma disposePage_consistent filePtr pageNum s r s' :
  consistent s → disposePage filePtr pageNum s = (r, s') → consistent s'.
Proof.
  intros Hc. unfold disposePage, hashTable_lookup.
  destruct (hashTable s !! (filePtr, pageNum)) as [fid|] eqn:Hl; [|by intros [= <- <-]].
  destruct Hc as (Hws & Hb & Hcc). destruct (Hcc _ _ _ Hl) as (Hv & Hf & Hp).
  assert (Hev : consistent (with_desc fid (BufDesc_Clear (desc s fid))
                              (hashTable_remove filePtr pageNum s))).
  { rewrite <- Hf, <- Hp. by apply consistent_evict. }
  unfold bind, modify, File_deletePage. cbn [disk hashTable_remove with_hashTable with_desc].
  destruct (file_deletePage filePtr pageNum (disk s)) as [[code|] w];
    intros [= <- <-]; by apply (consistent_with_disk _ w) in Hev.
Qed.

Lemma reachable_consistent s : reachable s → consistent s.
Proof.
  induction 1 as [bufs w|s filePtr pageNum r s' _ IH H|s filePtr pageNum b r s' _ IH H
                  |s filePtr r s' _ IH H|s filePtr r s' _ IH Hnew H
                  |s filePtr pageNum r s' _ IH H].
  - apply consistent_BufMgr_new.
  - by apply (readPage_consistent filePtr pageNum s r).
  - by apply (unPinPage_consistent filePtr pageNum b s r).
  - by apply (flushFile_consistent filePtr s r).
  - by apply (allocPage_consistent filePtr s r).
  - by apply (disposePage_consistent filePtr pageNum s r).
Qed.


(** ** What a failing call leaves behind *)

Lemma allocBuf_Ok_evicted s i s1 :
  allocBuf s = (Ok i, s1) →
  valid (desc s1 i) = false ∧
  (valid (desc s i) = true →
   hashTable s1 !! (file (desc s i), pageNo (desc s i)) = None).
Proof.
  intros H. apply allocBuf_effect in H as (sc & Hsc & Hcase); [|done].
  cbv zeta in Hcase. set (h := clockHand (advanceClock sc)) in *.
  destruct (scanned_fields s sc h Hsc) as (Hf & Hp & _ & _ & _ & Hv).
  assert (Hclear : ∀ s0 d, valid (desc (with_desc h (BufDesc_Clear d) s0) h) = false).
  { intros s0 d.
    destruct (decide (N.to_nat h < length (bufDescTable s0))%nat) as [Hin|Hout].
    - by rewrite desc_with_desc_eq.
    - rewrite desc_out_of_range; [done|]. rewrite length_with_desc. lia. }
  destruct Hcase as [([=] & _)|[(c & w & [=] & _)
                    |[([= <-] & Hvd & ->)|([= <-] & Hvd & _ & w & ->)]]].
  - split; [apply Hclear|].
    intros Hvs. rewrite <- Hv in Hvs. congruence.
  - split; [apply Hclear|].
    intros _. simpl. rewrite <- Hf, <- Hp. apply lookup_delete_eq.
Qed.

Lemma partly_flushed_refl filePtr s : partly_flushed filePtr s s.
Proof. split; auto. Qed.

Lemma partly_flushed_trans filePtr s1 s2 s3 :
  partly_flushed filePtr s1 s2 → partly_flushed filePtr s2 s3 →
  partly_flushed filePtr s1 s3.
Proof.
  intros [Hn1 Hp1 Hs1 Hc1 Hl1 Hd1 Hh1] [Hn2 Hp2 Hs2 Hc2 Hl2 Hd2 Hh2].
  split; try congruence.
  - intros i. destruct (Hd1 i) as [E1|(Hf & Hv & Hp & Hd & E1)],
      (Hd2 i) as [E2|(Hf' & Hv' & Hp' & Hd' & E2)].
    + left. congruence.
    + right. rewrite E1 in *. done.
    + right. rewrite E2, E1. done.
    + rewrite E1 in Hv'. discriminate.
  - intros key. destruct (Hh1 key) as [E1|E1], (Hh2 key) as [E2|E2];
      rewrite ?E2, ?E1; auto.
Qed.

Lemma flushFile_body_partly_flushed filePtr i s r s' :
  flushFile_body filePtr i s = (r, s') → partly_flushed filePtr s s'.
Proof.
  unfold flushFile_body. cbv zeta.
  destruct (N.eqb_spec (file (desc s i)) filePtr) as [Hf|];
    [|intros [= <- <-]; apply partly_flushed_refl].
  destruct (valid (desc s i)) eqn:Hv; cbn [negb];
    [|intros [= <- <-]; apply partly_flushed_refl].
  destruct (N.ltb_spec 0 (pinCnt (desc s i))) as [|Hp];
    [intros [= <- <-]; apply partly_flushed_refl|].
  destruct (dirty (desc s i)) eqn:Hd; [|intros [= <- <-]; apply partly_flushed_refl].
  unfold bind at 1, File_writePage.
  destruct (file_writePage _ _ (disk s)) as [[code|] w].
  - intros [= <- <-]. split; auto.
  - unfold bind, modify. intros [= <- <-].
    pose proof (valid_in_range s i Hv) as Hin.
    split; try done.
    + simpl. by rewrite !length_insert.
    + intros k. destruct (decide (i = k)) as [<-|Hne].
      * right. do 4 (split; [first [done | lia]|]).
        rewrite desc_with_desc_eq by (simpl; by rewrite length_insert).
        apply BufDesc_Clear_frameNo.
        change (desc (hashTable_remove ?a ?b ?x) i) with (desc x i).
        by rewrite desc_with_desc_eq.
      * left. rewrite desc_with_desc_ne by done.
        change (desc (hashTable_remove ?a ?b ?x) k) with (desc x k).
        by rewrite desc_with_desc_ne.
    + intros key. simpl.
      destruct (decide ((filePtr, pageNo (desc (with_desc i (set_dirty false
                  (desc (with_disk w s) i)) (with_disk w s)) i)) = key)) as [<-|Hne].
      * right. apply lookup_delete_eq.
      * left. by apply lookup_delete_ne.
Qed.

Lemma flushFile_partly_flushed filePtr s r s' :
  flushFile filePtr s = (r, s') → partly_flushed filePtr s s'.
Proof.
  unfold flushFile.
  apply (for_frames_ind (partly_flushed filePtr) (flushFile_body filePtr)).
  - apply partly_flushed_refl.
  - apply partly_flushed_trans.
  - apply flushFile_body_partly_flushed.
Qed.

(** *** [flushFile], frame by frame *)

Lemma frame_ids_succ (m : nat) :
  frame_ids (N.of_nat (S m)) = frame_ids (N.of_nat m) ++ [N.of_nat m].
Proof.
  unfold frame_ids. rewrite !Nat2N.id, seq_S, fmap_app. done.
Qed.

Lemma for_frames_snoc (body : FrameId → Op unit) (frames : list FrameId) k s :
  for_frames body (frames ++ [k]) s =
  match for_frames body frames s with
  | (Ok _, s1) => body k s1
  | other => other
  end.
Proof.
  revert s. induction frames as [|i frames IH]; intros s; simpl.
  - unfold bind, ret. by destruct (body k s) as [[[]|e|] s1].
  - unfold bind. destruct (body i s) as [[[]|e|] s1]; [apply IH|done|done].
Qed.

Lemma flushed_succ filePtr (m : nat) s :
  flushed filePtr (N.of_nat (S m)) s =
  flushed filePtr (N.of_nat m) s ++
  (if decide (file (desc s (N.of_nat m)) = filePtr ∧ dirty (desc s (N.of_nat m)) = true)
   then [N.of_nat m] else []).
Proof.
  unfold flushed. rewrite frame_ids_succ, filter_app. by f_equal.
Qed.

Lemma flush_writes_app filePtr s (l1 l2 : list FrameId) (w : World) :
  flush_writes filePtr s (l1 ++ l2) w =
  match flush_writes filePtr s l1 w with
  | (None, w1) => flush_writes filePtr s l2 w1
  | other => other
  end.
Proof.
  revert w. induction l1 as [|i l1 IH]; intros w; simpl; [done|].
  destruct (file_writePage _ _ w) as [[code|] w1]; [done|apply IH].
Qed.

Lemma flushed_upto_0 filePtr s : flushed_upto filePtr 0 s s.
Proof. split; try done; intros i Hi; lia. Qed.

(** One more frame that the loop passes without touching it. *)
Lemma flushed_upto_skip filePtr (m : nat) s s1 :
  flushed_upto filePtr (N.of_nat m) s s1 →
  (file (desc s (N.of_nat m)) = filePtr →
   valid (desc s (N.of_nat m)) = true ∧ pinCnt (desc s (N.of_nat m)) = 0 ∧
   dirty (desc s (N.of_nat m)) = false) →
  flushed_upto filePtr (N.of_nat (S m)) s s1.
Proof.
  intros [Hn Hp Hs Hc Hl Hready Hfreed Hkept Hidx Hdisk] Hm.
  assert (Hcase : ∀ i, i < N.of_nat (S m) → i < N.of_nat m ∨ i = N.of_nat m) by lia.
  split; try done.
  - intros i Hi Hf. destruct (Hcase i Hi) as [Hlt| ->]; [by apply Hready|].
    destruct (Hm Hf) as (Hv & Hz & _). done.
  - intros i Hi Hf Hd. destruct (Hcase i Hi) as [Hlt| ->]; [by apply Hfreed|].
    destruct (Hm Hf) as (_ & _ & Hd'). congruence.
  - intros i Hi. apply Hkept. intros (Hlt & Hf & Hd). apply Hi. split; [lia|done].
  - intros key Hkey. apply Hidx. intros i Hi. apply Hkey. lia.
  - rewrite flushed_succ. destruct (decide _) as [[Hf Hd]|_].
    + destruct (Hm Hf) as (_ & _ & Hd'). congruence.
    + by rewrite app_nil_r.
Qed.

(** One more frame, which the loop writes back and frees. *)
Lemma flushed_upto_flush filePtr (m : nat) s s1 (w : World) :
  flushed_upto filePtr (N.of_nat m) s s1 →
  file (desc s (N.of_nat m)) = filePtr → valid (desc s (N.of_nat m)) = true →
  pinCnt (desc s (N.of_nat m)) = 0 → dirty (desc s (N.of_nat m)) = true →
  file_writePage filePtr (page_at s (frameNo (desc s (N.of_nat m)))) (disk s1) = (None, w) →
  flushed_upto filePtr (N.of_nat (S m)) s
    (with_desc (N.of_nat m) (BufDesc_Clear (desc s (N.of_nat m)))
       (hashTable_remove filePtr (pageNo (desc s (N.of_nat m))) (with_disk w s1))).
Proof.
  intros [Hn Hp Hs Hc Hl Hready Hfreed Hkept Hidx Hdisk] Hf Hv Hz Hd Hw.
  set (k := N.of_nat m) in *.
  assert (Hcase : ∀ i, i < N.of_nat (S m) → i < k ∨ i = k) by (subst k; lia).
  assert (Hin : (N.to_nat k < length (bufDescTable s1))%nat)
    by (rewrite Hl; by apply valid_in_range).
  split; try done.
  - simpl. by rewrite length_insert.
  - intros i Hi Hfi. destruct (Hcase i Hi) as [Hlt| ->]; [by apply Hready|done].
  - intros i Hi Hfi Hdi. destruct (Hcase i Hi) as [Hlt| ->].
    + rewrite desc_with_desc_ne by lia.
      change (desc (hashTable_remove ?a ?b ?x) i) with (desc s1 i).
      destruct (Hfreed i Hlt Hfi Hdi) as [E1 E2]. split; [done|]. simpl.
      destruct (decide ((filePtr, pageNo (desc s k)) = (filePtr, pageNo (desc s i))))
        as [->|Hne]; [apply lookup_delete_eq|by rewrite lookup_delete_ne].
    + split; [by rewrite desc_with_desc_eq|]. simpl. apply lookup_delete_eq.
  - intros i Hi.
    assert (Hne : k ≠ i).
    { intros <-. apply Hi. split; [subst k; lia|done]. }
    rewrite desc_with_desc_ne by done.
    change (desc (hashTable_remove ?a ?b ?x) i) with (desc s1 i).
    apply Hkept. intros (Hlt & Hfi & Hdi). apply Hi. split; [subst k; lia|done].
  - intros key Hkey. simpl. rewrite lookup_delete_ne.
    + apply Hidx. intros i Hi. apply Hkey. subst k; lia.
    + intros Heq. apply (Hkey k); [subst k; lia|done|done|done].
  - rewrite flushed_succ. fold k. destruct (decide _) as [_|Hno]; [|by destruct Hno].
    rewrite flush_writes_app, Hdisk. simpl. by rewrite Hw.
Qed.

(** What the loop of [flushFile] has done when it has gone through the
    first [m] frames: it has passed them all, or it has stopped at one of
    them. *)
Lemma flushFile_frames filePtr (m : nat) s r s' :
  for_frames (flushFile_body filePtr) (frame_ids (N.of_nat m)) s = (r, s') →
  (r = Ok tt ∧ flushed_upto filePtr (N.of_nat m) s s') ∨
  (∃ e (j : nat) s1, r = Raise e ∧ (j < m)%nat ∧
     flushed_upto filePtr (N.of_nat j) s s1 ∧
     flush_stopped filePtr (N.of_nat j) e s s1 s').
Proof.
  revert r s'. induction m as [|m IH]; intros r s'.
  - simpl. unfold ret. intros [= <- <-]. left. split; [done|apply flushed_upto_0].
  - rewrite frame_ids_succ, for_frames_snoc.
    destruct (for_frames (flushFile_body filePtr) (frame_ids (N.of_nat m)) s)
      as [r1 s1] eqn:Hloop.
    destruct (IH r1 s1 eq_refl) as [[-> Hfu]|(e & j & s0 & -> & Hj & Hfu & Hstop)].
    2:{ intros [= <- <-]. right. exists e, j, s0. split; [done|]. split; [lia|done]. }
    set (k := N.of_nat m).
    assert (Hdk : desc s1 k = desc s k).
    { apply (fu_kept _ _ _ _ Hfu). intros (Hlt & _). lia. }
    assert (Hpk : ∀ i, page_at s1 i = page_at s i).
    { intros i. unfold page_at. by rewrite (fu_pool _ _ _ _ Hfu). }
    unfold flushFile_body. cbv zeta. rewrite Hdk, Hpk.
    destruct (N.eqb_spec (file (desc s k)) filePtr) as [Hf|Hf].
    2:{ intros [= <- <-]. left. split; [done|]. by apply flushed_upto_skip. }
    destruct (valid (desc s k)) eqn:Hv; cbn [negb].
    2:{ intros [= <- <-]. right. eexists. exists m, s1. split; [done|]. split; [lia|].
        split; [done|]. split; [done|]. left. done. }
    destruct (N.ltb_spec 0 (pinCnt (desc s k))) as [Hpin|Hpin].
    { intros [= <- <-]. right. eexists. exists m, s1. split; [done|]. split; [lia|].
      split; [done|]. split; [done|]. right; left. done. }
    assert (Hz : pinCnt (desc s k) = 0) by lia.
    destruct (dirty (desc s k)) eqn:Hd.
    2:{ intros [= <- <-]. left. split; [done|]. by apply flushed_upto_skip. }
    unfold bind at 1, File_writePage. rewrite Hf.
    destruct (file_writePage filePtr (page_at s (frameNo (desc s k))) (disk s1))
      as [[code|] w] eqn:Hw.
    + intros [= <- <-]. right. eexists. exists m, s1. split; [done|]. split; [lia|].
      split; [done|]. split; [done|]. right; right.
      do 3 (split; [done|]). by exists code, w.
    + unfold bind, modify. intros [= <- <-]. left. split; [done|].
      assert (Hin : (N.to_nat k < length (bufDescTable s1))%nat).
      { rewrite (fu_length _ _ _ _ Hfu). by apply valid_in_range. }
      assert (E : with_desc k (BufDesc_Clear (desc (hashTable_remove filePtr
                    (pageNo (desc (with_desc k (set_dirty false (desc (with_disk w s1) k))
                                     (with_disk w s1)) k))
                    (with_desc k (set_dirty false (desc (with_disk w s1) k))
                       (with_disk w s1))) k))
                    (hashTable_remove filePtr
                       (pageNo (desc (with_desc k (set_dirty false (desc (with_disk w s1) k))
                                        (with_disk w s1)) k))
                       (with_desc k (set_dirty false (desc (with_disk w s1) k))
                          (with_disk w s1)))
                = with_desc k (BufDesc_Clear (desc s k))
                    (hashTable_remove filePtr (pageNo (desc s k)) (with_disk w s1))).
      { change (desc (with_disk w s1) k) with (desc s1 k).
        change (desc (hashTable_remove ?a ?b ?x) k) with (desc x k).
        rewrite desc_with_desc_eq by done. rewrite Hdk.
        unfold with_desc, hashTable_remove, with_hashTable, with_disk; simpl.
        f_equal. by rewrite list_insert_insert_eq. }
      rewrite E. by apply flushed_upto_flush.
Qed.

Lemma flushFile_cases filePtr s r s' :
  flushFile filePtr s = (r, s') →
  (r = Ok tt ∧ flushed_upto filePtr (numBufs s) s s') ∨
  (∃ e k s1, r = Raise e ∧ k < numBufs s ∧
     flushed_upto filePtr k s s1 ∧ flush_stopped filePtr k e s s1 s').
Proof.
  intros H. pose proof (flushFile_frames filePtr (N.to_nat (numBufs s)) s r s') as Hc.
  rewrite N2Nat.id in Hc.
  destruct (Hc H) as [?|(e & j & s1 & -> & Hj & Hfu & Hstop)]; [by left|].
  right. exists e, (N.of_nat j), s1. split; [done|]. split; [lia|done].
Qed.

(** C2, as amended.  A [flushFile] that returns has found every frame of
    the file valid and unpinned, and has freed exactly the dirty ones: a
    dirty frame is written back (the writes are those of the dirty frames
    of the file, in the order of the frames, and none failed), its
    descriptor is cleared and its index entry removed; a clean frame is
    left as it was, valid, and (where index and descriptors agree) with
    its index entry in place. *)
Theorem flushFile_dirty_only filePtr s s' :
  flushFile filePtr s = (Ok tt, s') →
  flush_writes filePtr s (flushed filePtr (numBufs s) s) (disk s) = (None, disk s') ∧
  bufPool s' = bufPool s ∧
  ∀ i, i < numBufs s → file (desc s i) = filePtr →
    valid (desc s i) = true ∧ pinCnt (desc s i) = 0 ∧
    (dirty (desc s i) = true →
       i ∈ flushed filePtr (numBufs s) s ∧
       desc s' i = BufDesc_Clear (desc s i) ∧
       hashTable s' !! (filePtr, pageNo (desc s i)) = None) ∧
    (dirty (desc s i) = false →
       desc s' i = desc s i ∧
       (consistent s → hashTable s' !! (filePtr, pageNo (desc s i)) = Some i)).
Proof.
  intros H.
  destruct (flushFile_cases _ _ _ _ H) as [[_ Hfu]|(e & k & s1 & [=] & _)].
  destruct Hfu as [_ Hp _ _ _ Hready Hfreed Hkept Hidx Hdisk].
  split; [done|]. split; [done|].
  intros i Hi Hf. destruct (Hready i Hi Hf) as [Hv Hz].
  split; [done|]. split; [done|]. split.
  - intros Hd. split; [|by apply Hfreed].
    unfold flushed. apply list_elem_of_filter. split; [done|].
    unfold frame_ids. apply list_elem_of_fmap. exists (N.to_nat i).
    split; [lia|]. apply elem_of_seq. lia.
  - intros Hd. split.
    + apply Hkept. intros (_ & _ & Hd'). congruence.
    + intros (_ & Hb & _). rewrite Hidx.
      * rewrite <- Hf. by apply Hb.
      * intros j Hj Hfj Hdj Heq. injection Heq as Heq.
        destruct (Hready j Hj Hfj) as [Hvj _].
        pose proof (Hb i Hv) as Ei. pose proof (Hb j Hvj) as Ej.
        rewrite Hf, Heq in Ei. rewrite Hfj in Ej.
        assert (i = j) by congruence. subst j. congruence.
Qed.

(** C4, as amended.  A call that raises has not undone what it did
    before.  [unPinPage] raises with the state as it was.  [allocBuf]
    raises after at most moving the hand and clearing reference bits.
    [readPage] raises only on a miss, in the state its call of [allocBuf]
    left: when it is the read that failed, the frame it got is already
    free and its former page evicted.  [flushFile] raises at the first
    frame of the file that is free or pinned or whose write-back fails:
    the dirty frames of the file before that frame are written back,
    cleared and out of the index, and everything else (the other frames
    and index entries, the pool, the hand) is as it was.  [allocPage] raises
    with the pool untouched when the file cannot allocate, and else in the
    state [allocBuf] left.  [disposePage] raises only when [deletePage]
    fails, which is after the descriptor was cleared and the index entry
    removed. *)
Theorem failed_calls_effects s :
  (∀ filePtr pageNum dirtyIn e s',
     unPinPage filePtr pageNum dirtyIn s = (Raise e, s') → s' = s) ∧
  (∀ e s', allocBuf s = (Raise e, s') →
     numBufs s' = numBufs s ∧ bufPool s' = bufPool s ∧ hashTable s' = hashTable s ∧
     (∀ i, desc s' i = desc s i ∨
           (refbit (desc s i) = true ∧ desc s' i = set_refbit false (desc s i))) ∧
     ((e = BufferExceededException ∧ disk s' = disk s) ∨
      ∃ code, e = FileException code)) ∧
  (∀ filePtr pageNum e s',
     readPage filePtr pageNum s = (Raise e, s') →
     hashTable s !! (filePtr, pageNum) = None ∧
     (allocBuf s = (Raise e, s') ∨
      ∃ i s1 code w,
        allocBuf s = (Ok i, s1) ∧
        file_readPage filePtr pageNum (disk s1) = (inl code, w) ∧
        e = FileException code ∧ s' = with_disk w s1 ∧
        valid (desc s' i) = false ∧
        (valid (desc s i) = true →
         hashTable s' !! (file (desc s i), pageNo (desc s i)) = None))) ∧
  (∀ filePtr e s',
     flushFile filePtr s = (Raise e, s') →
     ∃ k s1, k < numBufs s ∧ flushed_upto filePtr k s s1 ∧
             flush_stopped filePtr k e s s1 s') ∧
  (∀ filePtr e s',
     allocPage filePtr s = (Raise e, s') →
     (∃ code w, file_allocatePage filePtr (disk s) = (inl code, w) ∧
                e = FileException code ∧ s' = with_disk w s) ∨
     (∃ p w, file_allocatePage filePtr (disk s) = (inr p, w) ∧
             allocBuf (with_disk w s) = (Raise e, s'))) ∧
  (∀ filePtr pageNum e s',
     disposePage filePtr pageNum s = (Raise e, s') →
     ∃ fid code w,
       hashTable s !! (filePtr, pageNum) = Some fid ∧
       file_deletePage filePtr pageNum (disk s) = (Some code, w) ∧
       e = FileException code ∧
       s' = with_disk w (hashTable_remove filePtr pageNum
                           (with_desc fid (BufDesc_Clear (desc s fid)) s))).
Proof.
  split; [|split; [|split; [|split; [|split]]]].
  - unfold unPinPage, hashTable_lookup. intros filePtr pageNum dirtyIn e s'.
    destruct (hashTable s !! (filePtr, pageNum)) as [f|]; [|discriminate].
    destruct (pinCnt (desc s f) =? 0); [by intros [= <- <-]|].
    destruct (0 <? pinCnt (desc s f)); [|discriminate].
    destruct dirtyIn; discriminate.
  - intros e s' H.
    pose proof (allocBuf_sizes _ _ _ H) as (Hn & Hp & _).
    split; [done|]. split; [done|].
    apply allocBuf_effect in H as (sc & Hsc & Hcase); [|done].
    cbv zeta in Hcase. pose proof (scanned_desc _ _ Hsc) as Hd.
    destruct Hsc as [_ _ Hh _ Hdk _ _].
    destruct Hcase as [([= ->] & ->)|[(c & w & [= ->] & ->)|[([=] & _)|([=] & _)]]];
      (split; [done|]); (split; [apply Hd|]).
    + by left.
    + right. by exists c.
  - intros filePtr pageNum e s'. unfold readPage, hashTable_lookup.
    destruct (hashTable s !! (filePtr, pageNum)); [discriminate|].
    intros H. split; [done|]. revert H.
    unfold bind at 1. destruct (allocBuf s) as [[i| |] s1] eqn:Ha;
      [|intros [= <- <-]; by left|discriminate].
    unfold bind at 1, File_readPage.
    destruct (file_readPage filePtr pageNum (disk s1)) as [[code|p] w] eqn:Hrd.
    + intros [= <- <-]. right. exists i, s1, code, w.
      do 4 (split; [done|]). exact (allocBuf_Ok_evicted s i s1 Ha).
    + discriminate.
  - intros filePtr e s' H.
    destruct (flushFile_cases _ _ _ _ H) as [[[=] _]|(e' & k & s1 & [= <-] & Hk & Hfu & Hst)].
    by exists k, s1.
  - intros filePtr e s'. unfold allocPage. unfold bind at 1, File_allocatePage.
    destruct (file_allocatePage filePtr (disk s)) as [[code|p] w] eqn:Hal.
    + intros [= <- <-]. left. by exists code, w.
    + unfold bind at 1.
      destruct (allocBuf (with_disk w s)) as [[f| |] s1] eqn:Ha;
        [discriminate|intros [= <- <-]|discriminate].
      right. by exists p, w.
  - intros filePtr pageNum e s'. unfold disposePage, hashTable_lookup.
    destruct (hashTable s !! (filePtr, pageNum)) as [fid|]; [|discriminate].
    unfold bind, modify, File_deletePage.
    cbn [disk hashTable_remove with_hashTable with_desc].
    destruct (file_deletePage filePtr pageNum (disk s)) as [[code|] w];
      [|discriminate].
    intros [= <- <-]. by exists fid, code, w.
Qed.

(** ** The constructor *)

Lemma htsize_of_small (x : Z) : (0 ≤ x < 2 ^ 30)%Z → htsize_of x = (x + 1)%Z.
Proof.
  intros Hx. unfold htsize_of, wrap_int.
  change (2 ^ 31)%Z with 2147483648%Z. change (2 ^ 32)%Z with 4294967296%Z.
  change (2 ^ 30)%Z with 1073741824%Z in Hx.
  rewrite (Z.mod_small (x * 2 + 2147483648)) by lia.
  replace (x * 2 + 2147483648 - 2147483648)%Z with (x * 2)%Z by lia.
  rewrite Z.quot_mul by lia.
  rewrite Z.mod_small by lia. lia.
Qed.

Lemma clockHand_BufMgr_new bufs (w : World) :
  0 < bufs → bufs < 2 ^ 32 → clockHand (BufMgr_new bufs w) = bufs - 1.
Proof.
  intros H0 H32. simpl. unfold wrap32.
  replace (bufs + 2 ^ 32 - 1) with (bufs - 1 + 1 * 2 ^ 32) by lia.
  rewrite N.Div0.mod_add. apply N.mod_small. lia.
Qed.

(** C9, as amended.  The constructor with [bufs] frames, [bufs] from 1 to
    [2^32 - 1] and [(int)(bufs * 1.2)] from 0 to [2^30 - 1] (so that its
    double is an [int]), creates the index with size
    [(int)(bufs * 1.2) + 1], which is odd exactly when [(int)(bufs * 1.2)]
    is even; every descriptor starts with [valid = false]; the clock hand
    starts at [bufs - 1], so that the first advance lands on frame 0. *)
Theorem BufMgr_new_spec bufs (w : World) :
  0 < bufs → bufs < 2 ^ 32 → (0 ≤ scaled_bufs bufs < 2 ^ 30)%Z →
  htsize (BufMgr_new bufs w) = (scaled_bufs bufs + 1)%Z ∧
  Z.odd (htsize (BufMgr_new bufs w)) = Z.even (scaled_bufs bufs) ∧
  length (bufDescTable (BufMgr_new bufs w)) = N.to_nat bufs ∧
  (∀ i, valid (desc (BufMgr_new bufs w) i) = false) ∧
  clockHand (BufMgr_new bufs w) = bufs - 1 ∧
  clockHand (advanceClock (BufMgr_new bufs w)) = 0.
Proof.
  intros H0 H32 Hx.
  assert (Hsz : htsize (BufMgr_new bufs w) = (scaled_bufs bufs + 1)%Z)
    by (by apply htsize_of_small).
  split; [done|]. split; [|split; [|split; [|split]]].
  - rewrite Hsz. rewrite Z.add_1_r. apply Z.odd_succ.
  - simpl. unfold frame_ids. by rewrite !length_fmap, length_seq.
  - intros i. unfold desc, BufMgr_new; simpl.
    rewrite list_lookup_total_alt, list_lookup_fmap.
    by destruct (frame_ids bufs !! N.to_nat i).
  - by apply clockHand_BufMgr_new.
  - unfold advanceClock. cbn [clockHand with_clockHand numBufs].
    change (wrap32 (bufs + 2 ^ 32 - 1)) with (clockHand (BufMgr_new bufs w)).
    rewrite clockHand_BufMgr_new by done.
    unfold wrap32. replace (bufs - 1 + 1) with bufs by lia.
    rewrite (N.mod_small bufs) by lia. apply N.Div0.mod_same.
Qed.

End Properties.

(** * The properties on runs of the manager *)

Lemma st_victim_reachable : reachable st_victim.
Proof.
  eapply reach_unPinPage; [|unfold st_victim, after; apply surjective_pairing].
  eapply reach_readPage; [|apply surjective_pairing].
  eapply reach_readPage; [|apply surjective_pairing].
  apply reach_new.
Qed.

Lemma st_allocated_reachable : reachable st_allocated.
Proof.
  eapply reach_allocPage;
    [apply st_victim_reachable| |unfold st_allocated, after; apply surjective_pairing].
  intros p w H. vm_compute in H. injection H as <- <-. vm_compute. reflexivity.
Qed.

(** Scenario A: two frames, both pinned: a third page finds no frame. *)
Example scenario_A :
  (readPage 1 3 (after (readPage 1 2) (after (readPage 1 1) (BufMgr_new 2 disk0)))).1
  = Raise BufferExceededException.
Proof. vm_compute. reflexivity. Qed.

(** Scenario D: the second [unPinPage] of a page pinned once raises. *)
Example scenario_D :
  (unPinPage 1 1 false (after (readPage 1 1) (BufMgr_new 1 disk0))).1 = Ok tt ∧
  (unPinPage 1 1 false st_clean).1 = Raise (PageNotPinnedException 1 1 0).
Proof. split; vm_compute; reflexivity. Qed.

(** C1 on a run: frame 1 is pinned, frame 0 is claimed after three passes. *)
Lemma no_eviction_under_pin_witness :
  allocBuf_loop 4 0 st_victim = Some (3%nat, Ok 0, st_evicted) ∧
  ∃ pcount sc,
    continues 2 0 st_victim = Some (pcount, sc) ∧
    allocBuf_body pcount sc = Finish (Ok 0) st_evicted ∧
    ¬ (valid (desc sc 0) = true ∧ 0 < pinCnt (desc sc 0)) ∧
    valid (desc sc 0) = valid (desc st_victim 0) ∧
    pinCnt (desc sc 0) = pinCnt (desc st_victim 0).
Proof.
  assert (E : allocBuf_loop 4 0 st_victim = Some (3%nat, Ok 0, st_evicted))
    by (vm_compute; reflexivity).
  split; [exact E|].
  destruct (no_eviction_under_pin 4 st_victim 3 0 st_evicted E)
    as (pcount & sc & Hc & Hb & Hn & Hv & Hp & _).
  exists pcount, sc. repeat split; assumption.
Defined.

(** C3 on a run: two frames, at most four passes. *)
Lemma allocBuf_terminates_witness :
  0 < numBufs st_victim ∧ numBufs st_victim < 2 ^ 32 ∧
  ∃ n r s',
    allocBuf_loop (2 * N.to_nat (numBufs st_victim)) 0 st_victim = Some (n, r, s') ∧
    (1 ≤ n ≤ 2 * N.to_nat (numBufs st_victim))%nat.
Proof.
  assert (H0 : 0 < numBufs st_victim) by (vm_compute; reflexivity).
  assert (H32 : numBufs st_victim < 2 ^ 32) by (vm_compute; reflexivity).
  split; [exact H0|]. split; [exact H32|].
  destruct (allocBuf_terminates st_victim H0 H32) as (n & r & s' & E & Hn & _).
  exists n, r, s'. split; [exact E|exact Hn].
Defined.

(** C3, as the specification states it, fails: with the files read-only,
    the write-back of the dirty victim raises, and [allocBuf] neither
    returns a frame nor raises [BufferExceededException]; and a pool of no
    frames has not ended its call after [2 * 0] passes (the first advance of
    the hand divides by [numBufs]). *)
Lemma allocBuf_write_failure :
  0 < numBufs st_victim_ro ∧
  (allocBuf st_victim_ro).1 = Raise (FileException 2) ∧
  (∀ f, (allocBuf st_victim_ro).1 ≠ Ok f) ∧
  (allocBuf st_victim_ro).1 ≠ Raise BufferExceededException ∧
  allocBuf_loop (2 * N.to_nat (numBufs (BufMgr_new 0 disk0))) 0 (BufMgr_new 0 disk0)
  = None.
Proof.
  assert (E : (allocBuf st_victim_ro).1 = Raise (FileException 2))
    by (vm_compute; reflexivity).
  split; [vm_compute; reflexivity|]. split; [exact E|].
  rewrite E. split; [intros f; discriminate|]. split; [discriminate|reflexivity].
Qed.

(** C7 on a run: the victim is page 1 in frame 0, unpinned and dirty. *)
Lemma victim_written_back_witness :
  allocBuf st_victim = (Ok 0, st_evicted) ∧
  pinCnt (desc st_victim 0) = 0 ∧
  hashTable st_evicted = delete (file (desc st_victim 0), pageNo (desc st_victim 0))
                           (hashTable st_victim) ∧
  desc st_evicted 0 = BufDesc_Clear (desc st_victim 0).
Proof.
  assert (E : allocBuf st_victim = (Ok 0, st_evicted)) by (vm_compute; reflexivity).
  split; [exact E|].
  destruct (victim_written_back st_victim (Ok 0) st_evicted E) as [H _].
  destruct (H 0 eq_refl) as (Hp & _ & Hh & Hd & _); [vm_compute; reflexivity|].
  split; [exact Hp|]. split; [exact Hh|exact Hd].
Defined.

(** The write-back of C7, on the run: the bytes of page 1 reach the file
    before the frame is claimed. *)
Example scenario_B_writeback :
  dirty (desc st_victim 0) = true ∧
  file_writePage 1 (page_at st_victim 0) (disk st_victim) = (None, disk st_evicted) ∧
  stored (disk st_evicted) !! (1, 1) = Some (page_at st_victim 0).
Proof. repeat split; vm_compute; reflexivity. Qed.

(** C5 on a run: a hit on page 2, already pinned once. *)
Lemma readPage_pins_once_witness :
  well_sized st_victim ∧
  readPage 1 2 st_victim = (Ok 1, after (readPage 1 2) st_victim) ∧
  pinCnt (desc (after (readPage 1 2) st_victim) 1) = pinCnt (desc st_victim 1) + 1.
Proof.
  assert (Hw : well_sized st_victim).
  { split; [vm_compute; reflexivity|]. split; [vm_compute; reflexivity|].
    intros key i. apply (map_Forall_lookup_1 (λ _ i, i < numBufs st_victim)).
    refine (bool_decide_unpack _ _). vm_compute. exact I. }
  assert (E : readPage 1 2 st_victim = (Ok 1, after (readPage 1 2) st_victim))
    by (vm_compute; reflexivity).
  split; [exact Hw|]. split; [exact E|].
  pose proof (readPage_pins_once 1 2 st_victim 1 _ Hw E) as H.
  change (hashTable st_victim !! (1, 2)) with (Some 1 : option FrameId) in H.
  destruct H as (_ & H & _). exact H.
Defined.



(** C10 on a run: the page disposed of is pinned and dirty. *)
Lemma disposePage_ignores_pins_witness :
  hashTable st_pinned_dirty !! (1, 1) = Some 0 ∧
  (N.to_nat 0 < length (bufDescTable st_pinned_dirty))%nat ∧
  pinCnt (desc st_pinned_dirty 0) = 1 ∧ dirty (desc st_pinned_dirty 0) = true ∧
  ∃ r s', disposePage 1 1 st_pinned_dirty = (r, s') ∧
          valid (desc s' 0) = false ∧
          hashTable s' = delete (1, 1) (hashTable st_pinned_dirty) ∧
          disk s' = (file_deletePage 1 1 (disk st_pinned_dirty)).2.
Proof.
  assert (Hl : hashTable st_pinned_dirty !! (1, 1) = Some 0)
    by (vm_compute; reflexivity).
  assert (Hin : (N.to_nat 0 < length (bufDescTable st_pinned_dirty))%nat)
    by (vm_compute; lia).
  split; [exact Hl|]. split; [exact Hin|].
  split; [vm_compute; reflexivity|]. split; [vm_compute; reflexivity|].
  destruct (disposePage_ignores_pins 1 1 st_pinned_dirty 0 Hl Hin)
    as (r & s' & E & _ & Hd & _ & Hv & _ & _ & Hh & _).
  exists r, s'. split; [exact E|]. split; [exact Hv|]. split; [exact Hh|exact Hd].
Defined.

(** C2, as the specification states it, fails.  [flushFile] on the file
    of a valid, unpinned, clean frame returns without touching it: the
    frame stays valid and its index entry stays in place.  (The removal
    and the clearing are inside the branch for dirty frames, as the
    comments in the source say: "if the page is modified".) *)
Theorem flushFile_keeps_clean_frame :
  valid (desc st_clean 0) = true ∧ file (desc st_clean 0) = 1 ∧
  pinCnt (desc st_clean 0) = 0 ∧ dirty (desc st_clean 0) = false ∧
  flushFile 1 st_clean = (Ok tt, st_clean) ∧
  valid (desc (after (flushFile 1) st_clean) 0) = true ∧
  hashTable (after (flushFile 1) st_clean) !! (1, 1) = Some 0.
Proof. repeat split; vm_compute; reflexivity. Qed.

(** The same call on a dirty frame does free it. *)
Example flushFile_frees_dirty_frame :
  let s := after (unPinPage 1 1 true) (after (readPage 1 1) (BufMgr_new 1 disk0)) in
  (flushFile 1 s).1 = Ok tt ∧
  valid (desc (after (flushFile 1) s) 0) = false ∧
  hashTable (after (flushFile 1) s) !! (1, 1) = None.
Proof. repeat split; vm_compute; reflexivity. Qed.

(** C2, as amended, on a run: of two unpinned frames of file 1, the dirty
    one (frame 0) is freed and the clean one (frame 1) is kept. *)
Lemma flushFile_dirty_only_witness :
  flushFile 1 st_mixed = (Ok tt, after (flushFile 1) st_mixed) ∧
  dirty (desc st_mixed 0) = true ∧ dirty (desc st_mixed 1) = false ∧
  desc (after (flushFile 1) st_mixed) 0 = BufDesc_Clear (desc st_mixed 0) ∧
  hashTable (after (flushFile 1) st_mixed) !! (1, 1) = None ∧
  desc (after (flushFile 1) st_mixed) 1 = desc st_mixed 1 ∧
  hashTable (after (flushFile 1) st_mixed) !! (1, 2) = Some 1.
Proof.
  assert (E : flushFile 1 st_mixed = (Ok tt, after (flushFile 1) st_mixed))
    by (vm_compute; reflexivity).
  assert (Hc : consistent st_mixed).
  { apply reachable_consistent.
    eapply reach_unPinPage; [apply st_victim_reachable|].
    unfold st_mixed, after. apply surjective_pairing. }
  assert (Hd0 : dirty (desc st_mixed 0) = true) by (vm_compute; reflexivity).
  assert (Hd1 : dirty (desc st_mixed 1) = false) by (vm_compute; reflexivity).
  split; [exact E|]. split; [exact Hd0|]. split; [exact Hd1|].
  destruct (flushFile_dirty_only 1 st_mixed _ E) as (_ & _ & H).
  destruct (H 0) as (_ & _ & H0 & _); [vm_compute; reflexivity..|].
  destruct (H 1) as (_ & _ & _ & H1); [vm_compute; reflexivity..|].
  destruct (H0 Hd0) as (_ & Hclear & Hgone).
  destruct (H1 Hd1) as (Hsame & Hidx).
  split; [exact Hclear|]. split; [exact Hgone|]. split; [exact Hsame|].
  exact (Hidx Hc).
Defined.

(** C4, as the specification states it, fails.  A [readPage] miss whose
    read fails has already evicted the page the frame held; a [flushFile]
    that raises [PagePinnedException] at frame 1 has already written back
    and freed frame 0. *)
Lemma failed_calls_change_state :
  (readPage 1 9 st_clean).1 = Raise (FileException 1) ∧
  hashTable st_clean !! (1, 1) = Some 0 ∧
  hashTable (after (readPage 1 9) st_clean) !! (1, 1) = None ∧
  valid (desc st_clean 0) = true ∧
  valid (desc (after (readPage 1 9) st_clean) 0) = false ∧
  (flushFile 1 st_victim).1 = Raise (PagePinnedException 1 2 1) ∧
  valid (desc st_victim 0) = true ∧
  valid (desc (after (flushFile 1) st_victim) 0) = false ∧
  hashTable st_victim !! (1, 1) = Some 0 ∧
  hashTable (after (flushFile 1) st_victim) !! (1, 1) = None.
Proof. repeat split; vm_compute; reflexivity. Qed.

(** C9, as amended, for ten frames: an index of size 13. *)
Lemma BufMgr_new_spec_witness :
  0 < 10 ∧ 10 < 2 ^ 32 ∧ (0 ≤ scaled_bufs 10 < 2 ^ 30)%Z ∧
  htsize (BufMgr_new 10 disk0) = 13%Z ∧
  clockHand (advanceClock (BufMgr_new 10 disk0)) = 0.
Proof.
  assert (H0 : 0 < 10) by lia.
  assert (H32 : 10 < 2 ^ 32) by (vm_compute; reflexivity).
  assert (Hx : (0 ≤ scaled_bufs 10 < 2 ^ 30)%Z)
    by (vm_compute; split; [discriminate|reflexivity]).
  split; [exact H0|]. split; [exact H32|]. split; [exact Hx|].
  destruct (BufMgr_new_spec 10 disk0 H0 H32 Hx) as (Hs & _ & _ & _ & _ & Hc).
  split; [rewrite Hs; vm_compute; reflexivity|exact Hc].
Defined.

(** Where the range of C9, as amended, ends: with 894784853 frames
    [(int)(bufs * 1.2)] is [2^30 - 1]; with one frame more it is [2^30],
    whose double is no [int] (undefined in the source; wrapped around
    here, which gives a negative size). *)
Example htsize_range_end :
  scaled_bufs 894784853 = (2 ^ 30 - 1)%Z ∧ compute_htsize 894784853 = (2 ^ 30)%Z ∧
  scaled_bufs 894784854 = (2 ^ 30)%Z ∧ compute_htsize 894784854 = (-1073741823)%Z.
Proof. repeat split; vm_compute; reflexivity. Qed.

(** C9, as the specification states it, fails: for one frame (and for
    three) the size of the index is even. *)
Lemma htsize_even :
  htsize (BufMgr_new 1 disk0) = 2%Z ∧ Z.odd (htsize (BufMgr_new 1 disk0)) = false ∧
  htsize (BufMgr_new 3 disk0) = 4%Z ∧ Z.odd (htsize (BufMgr_new 3 disk0)) = false.
Proof. repeat split; vm_compute; reflexivity. Qed.

(** * More properties of the code *)

Section MoreProperties.

Context {World : Type} {FS : FileCollab World}.

Implicit Types (s : BufMgr World) (d : BufDesc) (i j f fid : FrameId).
Implicit Types (filePtr : File) (pageNum : PageId).

(** ** The clock hand *)

Lemma iter_advanceClock (k : nat) s :
  Nat.iter k advanceClock s = with_clockHand (hand_after k s) s.
Proof.
  induction k as [|k IH].
  - by destruct s.
  - rewrite Nat.iter_succ, IH. unfold hand_after. by rewrite Nat.iter_succ.
Qed.

Lemma hand_after_lt (k : nat) s : numBufs s ≠ 0 → hand_after (S k) s < numBufs s.
Proof.
  intros Hn. unfold hand_after. rewrite Nat.iter_succ. unfold next_hand at 1.
  by apply N.mod_lt.
Qed.

(** X1. However often [advanceClock] is called, the hand stays a frame
    number, and [numBufs] calls bring it back to the frame it started
    from, nothing else in the manager having changed. *)
Theorem advanceClock_cycle s :
  clockHand s < numBufs s → numBufs s < 2 ^ 32 →
  (∀ k : nat, clockHand (Nat.iter (S k) advanceClock s) < numBufs s) ∧
  Nat.iter (N.to_nat (numBufs s)) advanceClock s = s.
Proof.
  intros Hh Hn. split.
  - intros k. rewrite iter_advanceClock. simpl. apply hand_after_lt. lia.
  - rewrite iter_advanceClock, hand_after_cycle by done. by destruct s.
Qed.

(** ** A pool with every frame pinned *)

Lemma allocBuf_body_pinned pcount s :
  pcount ≠ numBufs s → pinned (desc s (clockHand (advanceClock s))) →
  allocBuf_body pcount s = Continue (wrap32 (pcount + 1)) (advanceClock s).
Proof.
  intros Hpc [Hv Hp]. unfold allocBuf_body. cbv zeta.
  change (desc (advanceClock s) ?x) with (desc s x).
  change (numBufs (advanceClock s)) with (numBufs s).
  apply N.eqb_neq in Hpc. apply N.ltb_lt in Hp. by rewrite Hpc, Hv, Hp.
Qed.

Lemma allocBuf_loop_all_pinned (k : nat) pcount s :
  N.of_nat k + pcount = numBufs s → numBufs s < 2 ^ 32 →
  (∀ a : nat, (1 ≤ a ≤ k)%nat → pinned (desc s (hand_after a s))) →
  allocBuf_loop (S k) pcount s =
  Some (S k, Raise BufferExceededException, with_clockHand (hand_after (S k) s) s).
Proof.
  revert pcount s. induction k as [|k IH]; intros pcount s Hk Hn Hall;
    rewrite allocBuf_loop_S.
  - unfold allocBuf_body. cbv zeta.
    change (numBufs (advanceClock s)) with (numBufs s).
    replace pcount with (numBufs s) by lia. by rewrite N.eqb_refl.
  - rewrite allocBuf_body_pinned; [|lia|apply (Hall 1%nat); lia].
    rewrite (IH (wrap32 (pcount + 1)) (advanceClock s)).
    + rewrite (hand_after_step (S k) s (advanceClock s)) by done. done.
    + unfold wrap32. rewrite N.mod_small by lia.
      change (numBufs (advanceClock s)) with (numBufs s). lia.
    + done.
    + intros a Ha. rewrite (hand_after_step a s (advanceClock s)) by done.
      apply Hall. lia.
Qed.

(** X2. When every frame holds a pinned page, [allocBuf] raises
    [BufferExceededException] after exactly [numBufs + 1] passes, having
    changed nothing but the hand, which ends one frame further; and so
    does [readPage] for any page that is not in the pool. *)
Theorem allocBuf_all_pinned s :
  0 < numBufs s → numBufs s < 2 ^ 32 →
  (∀ i, i < numBufs s → pinned (desc s i)) →
  let s' := with_clockHand (hand_after (S (N.to_nat (numBufs s))) s) s in
  allocBuf_loop (2 * N.to_nat (numBufs s)) 0 s =
    Some (S (N.to_nat (numBufs s)), Raise BufferExceededException, s') ∧
  allocBuf s = (Raise BufferExceededException, s') ∧
  (clockHand s < numBufs s →
   clockHand s' = (clockHand s + 1) mod numBufs s) ∧
  (∀ filePtr pageNum, hashTable s !! (filePtr, pageNum) = None →
     readPage filePtr pageNum s = (Raise BufferExceededException, s')).
Proof.
  intros Hn0 Hn Hall s'.
  assert (E : allocBuf_loop (2 * N.to_nat (numBufs s)) 0 s =
              Some (S (N.to_nat (numBufs s)), Raise BufferExceededException, s')).
  { apply (allocBuf_loop_mono (S (N.to_nat (numBufs s)))); [|lia].
    apply allocBuf_loop_all_pinned; [lia|done|].
    intros a Ha. apply Hall. destruct a as [|a]; [lia|]. apply hand_after_lt. lia. }
  assert (Ea : allocBuf s = (Raise BufferExceededException, s'))
    by (unfold allocBuf; by rewrite E).
  split; [done|]. split; [done|]. split.
  - intros Hh. subst s'. cbn [clockHand with_clockHand].
    unfold hand_after. rewrite Nat.iter_succ.
    fold (hand_after (N.to_nat (numBufs s)) s). rewrite hand_after_cycle by done.
    unfold next_hand, wrap32. rewrite (N.mod_small (_ + 1) (2 ^ 32)) by lia. done.
  - intros filePtr pageNum Hl. unfold readPage, hashTable_lookup. rewrite Hl.
    unfold bind. by rewrite Ea.
Qed.

(** ** Pinned pages stay where they are *)

Lemma allocBuf_loop_pinned_desc fuel pcount s n r s' i :
  allocBuf_loop fuel pcount s = Some (n, r, s') → pinned (desc s i) →
  desc s' i = desc s i.
Proof.
  revert pcount s n. induction fuel as [|fuel IH]; intros pcount s n; [discriminate|].
  rewrite allocBuf_loop_S. intros H [Hv Hp].
  destruct (allocBuf_body pcount s) as [pcount1 s1|r1 s1] eqn:Hb.
  - destruct (allocBuf_loop fuel pcount1 s1) as [[[n1 r2] s2]|] eqn:E; [|discriminate].
    injection H as <- <- <-.
    apply allocBuf_body_Continue in Hb as (_ & _ & _ & _ & Hcase).
    assert (Hd : desc s1 i = desc s i).
    { destruct Hcase as [(_ & _ & ->)|(Hz & _ & _ & ->)]; [done|].
      rewrite desc_with_desc_ne; [done|]. intros Heq. rewrite Heq in Hz. lia. }
    rewrite <- Hd. apply (IH _ _ _ E). by rewrite Hd.
  - injection H as <- <- <-.
    apply allocBuf_body_Finish_cases in Hb. cbv zeta in Hb.
    set (h := clockHand (advanceClock s)) in *.
    destruct Hb as [(_ & _ & ->)|[(_ & Hvh & _ & ->)|(_ & _ & Hz & _ & Hcase)]].
    + done.
    + rewrite desc_with_desc_ne; [done|]. intros Heq. rewrite Heq in Hvh. congruence.
    + assert (h ≠ i) by (intros Heq; rewrite Heq in Hz; lia).
      destruct Hcase as [(_ & _ & ->)|[(_ & w & _ & _ & ->)|(_ & c & w & _ & _ & ->)]];
        [by rewrite desc_with_desc_ne|by rewrite desc_with_desc_ne|done].
Qed.

Lemma allocBuf_pinned_desc s r s' i :
  allocBuf s = (r, s') → pinned (desc s i) → desc s' i = desc s i.
Proof.
  intros H Hp. destruct r as [f|e|]; [| |by apply allocBuf_FuelExhausted in H as ->];
    (apply allocBuf_loop_of_allocBuf in H as [n E]; [|done]);
    by apply (allocBuf_loop_pinned_desc _ _ _ _ _ _ _ E).
Qed.

(** X3. [allocBuf] leaves every pinned page alone, whether it returns or
    raises: the descriptor of its frame is exactly as it was (the reference
    bit too), the bytes in the pool are the same, and, where the index and
    the descriptors agreed, the index still leads to the frame. *)
Theorem allocBuf_keeps_pinned s r s' i :
  allocBuf s = (r, s') → pinned (desc s i) →
  desc s' i = desc s i ∧
  page_at s' i = page_at s i ∧
  (consistent s →
   hashTable s' !! (file (desc s i), pageNo (desc s i)) = Some i).
Proof.
  intros H Hp. pose proof (allocBuf_pinned_desc _ _ _ _ H Hp) as Hd.
  split; [done|]. split.
  - apply allocBuf_sizes in H as (_ & Hpool & _). unfold page_at. by rewrite Hpool.
  - intros Hc. apply (allocBuf_consistent _ _ _ Hc) in H as (_ & Hb & _).
    rewrite <- Hd. apply Hb. rewrite Hd. by destruct Hp.
Qed.

Lemma allocBuf_Ok_unpinned s f s' :
  allocBuf s = (Ok f, s') → unpinned (desc s f) = true.
Proof.
  intros H. apply allocBuf_loop_of_allocBuf in H as [n E]; [|done].
  by apply allocBuf_loop_Ok_unpinned in E.
Qed.

Lemma pinned_not_unpinned d : pinned d → unpinned d = false.
Proof.
  intros [Hv Hp]. unfold unpinned. rewrite Hv. simpl. apply N.eqb_neq. lia.
Qed.

Lemma page_kept_allocBuf s r s' i :
  consistent s → pinned (desc s i) → allocBuf s = (r, s') → page_kept i s s'.
Proof.
  intros Hc Hp H. pose proof (allocBuf_pinned_desc _ _ _ _ H Hp) as Hd.
  pose proof (allocBuf_sizes _ _ _ H) as (_ & Hpool & _).
  apply (allocBuf_consistent _ _ _ Hc) in H as (_ & Hb & _).
  destruct Hp as [Hv Hp].
  split; rewrite ?Hd; try done.
  - unfold page_at. by rewrite Hpool.
  - rewrite <- Hd. apply Hb. by rewrite Hd.
Qed.

Lemma page_kept_with_disk s s' i (w : World) :
  page_kept i s s' → page_kept i s (with_disk w s').
Proof. by intros []. Qed.

Lemma page_kept_install s s1 i i0 filePtr pageNum (pg : Page) (w : World) :
  page_kept i s s1 → i0 ≠ i →
  (filePtr, pageNum) ≠ (file (desc s i), pageNo (desc s i)) →
  page_kept i s
    (with_desc i0 (BufDesc_Set filePtr pageNum (desc s1 i0))
       (hashTable_insert filePtr pageNum i0 (with_page i0 pg (with_disk w s1)))).
Proof.
  intros [Hv Hf Hp Hd Hpin Hpage Hidx] Hne Hkey.
  assert (Hdesc : desc (with_desc i0 (BufDesc_Set filePtr pageNum (desc s1 i0))
                    (hashTable_insert filePtr pageNum i0
                       (with_page i0 pg (with_disk w s1)))) i = desc s1 i)
    by (by rewrite desc_with_desc_ne).
  split; rewrite ?Hdesc; try done.
  - unfold page_at in *. simpl. rewrite list_lookup_total_insert_ne by lia. done.
  - simpl. by rewrite lookup_insert_ne.
Qed.

Lemma readPage_hit filePtr pageNum s j :
  hashTable s !! (filePtr, pageNum) = Some j →
  readPage filePtr pageNum s =
  (Ok j, with_desc j (set_pinCnt (pinCnt (desc s j) + 1) (set_refbit true (desc s j)))
           (with_desc j (set_refbit true (desc s j)) s)) ∨
  ((length (bufDescTable s) ≤ N.to_nat j)%nat ∧ readPage filePtr pageNum s = (Ok j, s)).
Proof.
  intros Hl. unfold readPage, hashTable_lookup. rewrite Hl.
  unfold bind, modify, ret.
  destruct (decide (N.to_nat j < length (bufDescTable s))%nat) as [Hin|Hout].
  - left. by rewrite desc_with_desc_eq.
  - right. split; [lia|]. f_equal. unfold with_desc; simpl.
    rewrite !list_insert_ge by (rewrite ?length_insert; lia). by destruct s.
Qed.

Lemma readPage_miss filePtr pageNum s :
  hashTable s !! (filePtr, pageNum) = None →
  readPage filePtr pageNum s =
  match allocBuf s with
  | (Ok i, s1) =>
      match file_readPage filePtr pageNum (disk s1) with
      | (inl code, w) => (Raise (FileException code), with_disk w s1)
      | (inr pg, w) =>
          (Ok i, with_desc i (BufDesc_Set filePtr pageNum (desc s1 i))
                   (hashTable_insert filePtr pageNum i (with_page i pg (with_disk w s1))))
      end
  | (Raise e, s1) => (Raise e, s1)
  | (FuelExhausted, s1) => (FuelExhausted, s1)
  end.
Proof.
  intros Hl. unfold readPage, hashTable_lookup. rewrite Hl.
  unfold bind at 1. destruct (allocBuf s) as [[i|e|] s1]; try done.
  unfold bind at 1, File_readPage.
  by destruct (file_readPage filePtr pageNum (disk s1)) as [[code|pg] w].
Qed.

(** X4. [readPage], of whatever page and whether it returns or raises,
    leaves every pinned page in its frame: same file and page number, same
    bytes, same dirty flag, no fewer pins, and the index still leads to the
    frame.  (A reference a caller holds stays good until it unpins.) *)
Theorem readPage_keeps_pinned filePtr pageNum s r s' i :
  consistent s → pinned (desc s i) →
  readPage filePtr pageNum s = (r, s') → page_kept i s s'.
Proof.
  intros Hc Hp H.
  assert (Hidx : hashTable s !! (file (desc s i), pageNo (desc s i)) = Some i).
  { destruct Hc as (_ & Hb & _). apply Hb. by destruct Hp. }
  destruct (hashTable s !! (filePtr, pageNum)) as [j|] eqn:Hl.
  - destruct (readPage_hit _ _ _ _ Hl) as [E|[_ E]]; rewrite E in H;
      injection H as <- <-; [|by split; try apply Hp].
    destruct Hp as [Hv Hp]. pose proof (valid_in_range s i Hv) as Hin.
    destruct (decide (j = i)) as [->|Hne].
    + split; rewrite ?desc_with_desc_eq by (rewrite ?length_with_desc; done);
        simpl; try done. lia.
    + split; rewrite ?desc_with_desc_ne by done; try done.
  - rewrite (readPage_miss _ _ _ Hl) in H.
    destruct (allocBuf s) as [[i0|e|] s1] eqn:Ha.
    + pose proof (page_kept_allocBuf _ _ _ _ Hc Hp Ha) as Hk.
      assert (i0 ≠ i).
      { intros ->. apply allocBuf_Ok_unpinned in Ha.
        rewrite pinned_not_unpinned in Ha by done. discriminate. }
      destruct (file_readPage filePtr pageNum (disk s1)) as [[code|pg] w];
        injection H as <- <-.
      * by apply page_kept_with_disk.
      * apply page_kept_install; [done|done|]. intros Heq. rewrite <- Heq in Hidx.
        congruence.
    + injection H as <- <-. by apply (page_kept_allocBuf s (Raise e)).
    + injection H as <- <-. by apply (page_kept_allocBuf s FuelExhausted).
Qed.

(** ** Calls one after the other *)

Lemma allocBuf_hashTable_Some s r s' key i :
  allocBuf s = (r, s') → hashTable s' !! key = Some i → hashTable s !! key = Some i.
Proof.
  intros H. destruct r as [f|e|]; [| |by apply allocBuf_FuelExhausted in H as ->];
    (apply allocBuf_effect in H as (sc & [_ _ Hh _ _ _ _] & Hcase); [|done]);
    cbv zeta in Hcase;
    destruct Hcase as [(_ & ->)|[(c & w & _ & ->)|[(_ & Hv & ->)|(_ & Hv & _ & w & ->)]]];
    simpl; rewrite ?Hh; try done.
  all: intros Hk; by apply lookup_delete_Some in Hk as [_ Hk].
Qed.

Lemma allocBuf_well_sized s r s' :
  well_sized s → allocBuf s = (r, s') → well_sized s'.
Proof.
  intros (Hl & Hp & Hidx) H.
  pose proof (allocBuf_sizes _ _ _ H) as (Hn & Hpool & Hlen).
  split; [|split].
  - by rewrite Hlen, Hn.
  - by rewrite Hpool, Hn.
  - intros key i Hk. rewrite Hn. apply (Hidx key).
    by apply (allocBuf_hashTable_Some _ _ _ _ _ H).
Qed.

Lemma readPage_Ok_post filePtr pageNum s i s1 :
  well_sized s → readPage filePtr pageNum s = (Ok i, s1) →
  well_sized s1 ∧
  hashTable s1 !! (filePtr, pageNum) = Some i ∧
  (N.to_nat i < length (bufDescTable s1))%nat ∧
  pinCnt (desc s1 i) = match hashTable s !! (filePtr, pageNum) with
                       | Some _ => pinCnt (desc s i) + 1
                       | None => 1
                       end.
Proof.
  intros Hws H. pose proof Hws as (Hl & Hp & Hidx).
  destruct (hashTable s !! (filePtr, pageNum)) as [j|] eqn:Hlk.
  - assert (Hin : (N.to_nat j < length (bufDescTable s))%nat)
      by (apply Hidx in Hlk; lia).
    destruct (readPage_hit _ _ _ _ Hlk) as [E|[? _]]; [|lia].
    rewrite E in H. injection H as <- <-.
    split; [|split; [done|split]].
    + split; [|split]; simpl; rewrite ?length_insert; done.
    + by rewrite !length_with_desc.
    + by rewrite desc_with_desc_eq by (by rewrite length_with_desc).
  - rewrite (readPage_miss _ _ _ Hlk) in H.
    destruct (allocBuf s) as [[i0|e|] s0] eqn:Ha; try discriminate.
    destruct (file_readPage filePtr pageNum (disk s0)) as [[code|pg] w];
      [discriminate|]. injection H as <- <-.
    pose proof (allocBuf_well_sized _ _ _ Hws Ha) as (Hl0 & Hp0 & Hidx0).
    pose proof (allocBuf_Ok_frame _ _ _ Ha) as (Hlt & Hn0 & _).
    assert (Hin : (N.to_nat i0 < length (bufDescTable s0))%nat) by lia.
    split; [|split; [|split]].
    + split; [|split]; simpl; rewrite ?length_insert; try done.
      intros key i Hk. apply lookup_insert_Some in Hk as [[_ <-]|[_ Hk]]; [lia|].
      by apply (Hidx0 key).
    + simpl. apply lookup_insert_eq.
    + by rewrite length_with_desc.
    + by rewrite desc_with_desc_eq.
Qed.

(** X5. After [readPage] has returned frame [i] for a page, a second
    [readPage] of the same page is a hit: it returns the same frame, pins
    it once more, and touches neither the files, nor the pool, nor the
    index. *)
Theorem readPage_again filePtr pageNum s i s1 :
  well_sized s → readPage filePtr pageNum s = (Ok i, s1) →
  ∃ s2, readPage filePtr pageNum s1 = (Ok i, s2) ∧
        pinCnt (desc s2 i) = pinCnt (desc s1 i) + 1 ∧
        disk s2 = disk s1 ∧ bufPool s2 = bufPool s1 ∧
        hashTable s2 = hashTable s1 ∧ clockHand s2 = clockHand s1.
Proof.
  intros Hws H.
  destruct (readPage_Ok_post _ _ _ _ _ Hws H) as (_ & Hlk & Hin & _).
  destruct (readPage_hit _ _ _ _ Hlk) as [E|[? _]]; [|lia].
  eexists. split; [exact E|].
  rewrite desc_with_desc_eq by (by rewrite length_with_desc). done.
Qed.

(** X6. A page [readPage] has just returned can be unpinned: [unPinPage]
    returns, the page stays in its frame and in the index, and the pin
    count is back to what it was before the [readPage] (0 for a page that
    was not in the pool); the frame is dirty when [dirtyIn] is true. *)
Theorem readPage_unPinPage filePtr pageNum dirtyIn s i s1 :
  well_sized s → readPage filePtr pageNum s = (Ok i, s1) →
  ∃ s2, unPinPage filePtr pageNum dirtyIn s1 = (Ok tt, s2) ∧
        pinCnt (desc s2 i) = match hashTable s !! (filePtr, pageNum) with
                             | Some _ => pinCnt (desc s i)
                             | None => 0
                             end ∧
        dirty (desc s2 i) = (if dirtyIn then true else dirty (desc s1 i)) ∧
        valid (desc s2 i) = valid (desc s1 i) ∧
        hashTable s2 !! (filePtr, pageNum) = Some i ∧
        page_at s2 i = page_at s1 i ∧ disk s2 = disk s1.
Proof.
  intros Hws H.
  destruct (readPage_Ok_post _ _ _ _ _ Hws H) as (_ & Hlk & Hin & Hpin).
  assert (Hpos : 0 < pinCnt (desc s1 i))
    by (rewrite Hpin; destruct (hashTable s !! (filePtr, pageNum)); lia).
  unfold unPinPage, hashTable_lookup. rewrite Hlk.
  destruct (N.eqb_spec (pinCnt (desc s1 i)) 0) as [|_]; [lia|].
  apply N.ltb_lt in Hpos as Hpos'. rewrite Hpos'.
  destruct dirtyIn; unfold bind, modify, ret; eexists; (split; [reflexivity|]);
    rewrite ?desc_with_desc_eq by (rewrite ?length_with_desc; done);
    simpl; rewrite Hpin;
    (repeat split; try done;
     destruct (hashTable s !! (filePtr, pageNum)); lia).
Qed.

(** ** [allocPage] *)

Lemma allocPage_unfold filePtr s :
  allocPage filePtr s =
  match file_allocatePage filePtr (disk s) with
  | (inl code, w) => (Raise (FileException code), with_disk w s)
  | (inr p, w) =>
      match allocBuf (with_disk w s) with
      | (Ok i, s1) =>
          (Ok (page_number p, i),
           with_desc i (BufDesc_Set filePtr (page_number p) (desc s1 i))
             (hashTable_insert filePtr (page_number p) i (with_page i p s1)))
      | (Raise e, s1) => (Raise e, s1)
      | (FuelExhausted, s1) => (FuelExhausted, s1)
      end
  end.
Proof.
  unfold allocPage. unfold bind at 1, File_allocatePage.
  destruct (file_allocatePage filePtr (disk s)) as [[code|p] w]; [done|].
  unfold bind at 1. by destruct (allocBuf (with_disk w s)) as [[i|e|] s1].
Qed.

(** X7. When [allocPage] returns page number [pn] and frame [i], the
    frame holds the page the file allocated, whose number is [pn]; its
    descriptor is valid, pinned once, clean, with the reference bit set;
    the index maps (file, [pn]) to [i]; and a [readPage] of (file, [pn])
    right after is a hit on [i] that reads no file. *)
Theorem allocPage_then_readPage filePtr s pn i s' :
  well_sized s → allocPage filePtr s = (Ok (pn, i), s') →
  (∃ w, file_allocatePage filePtr (disk s) = (inr (page_at s' i), w)) ∧
  page_number (page_at s' i) = pn ∧
  hashTable s' !! (filePtr, pn) = Some i ∧
  desc s' i = BufDesc_Set filePtr pn (desc s' i) ∧
  ∃ s2, readPage filePtr pn s' = (Ok i, s2) ∧ disk s2 = disk s' ∧
        bufPool s2 = bufPool s' ∧ pinCnt (desc s2 i) = 2.
Proof.
  intros Hws H. rewrite allocPage_unfold in H.
  destruct (file_allocatePage filePtr (disk s)) as [[code|p] w] eqn:Hal;
    [discriminate|].
  destruct (allocBuf (with_disk w s)) as [[i0|e|] s1] eqn:Ha; try discriminate.
  injection H as <- <- <-.
  assert (Hws' : well_sized (with_disk w s)) by done.
  pose proof (allocBuf_well_sized _ _ _ Hws' Ha) as (Hl1 & Hp1 & _).
  pose proof (allocBuf_Ok_frame _ _ _ Ha) as (Hlt & Hn1 & _).
  change (numBufs (with_disk w s)) with (numBufs s) in Hlt, Hn1.
  assert (Hin : (N.to_nat i0 < length (bufDescTable s1))%nat) by lia.
  assert (Hpg : page_at (with_desc i0 (BufDesc_Set filePtr (page_number p) (desc s1 i0))
                  (hashTable_insert filePtr (page_number p) i0 (with_page i0 p s1))) i0 = p).
  { unfold page_at; simpl. apply list_lookup_total_insert_eq. lia. }
  assert (Hlk : hashTable (with_desc i0 (BufDesc_Set filePtr (page_number p) (desc s1 i0))
                  (hashTable_insert filePtr (page_number p) i0 (with_page i0 p s1)))
                !! (filePtr, page_number p) = Some i0)
    by (simpl; apply lookup_insert_eq).
  split; [exists w; by rewrite Hpg|]. split; [by rewrite Hpg|]. split; [done|].
  split; [by rewrite desc_with_desc_eq|].
  destruct (readPage_hit _ _ _ _ Hlk) as [E|[Hout _]];
    [|simpl in Hout; rewrite length_insert in Hout; lia].
  eexists. split; [exact E|].
  rewrite !desc_with_desc_eq by (simpl; rewrite ?length_insert; done). done.
Qed.

(** X8. [allocPage] too leaves every pinned page in its frame, given that
    the file allocates a page that is not in the pool. *)
Theorem allocPage_keeps_pinned filePtr s r s' i :
  consistent s → allocates_new filePtr s → pinned (desc s i) →
  allocPage filePtr s = (r, s') → page_kept i s s'.
Proof.
  intros Hc Hnew Hp H. rewrite allocPage_unfold in H.
  assert (Hidx : hashTable s !! (file (desc s i), pageNo (desc s i)) = Some i).
  { destruct Hc as (_ & Hb & _). apply Hb. by destruct Hp. }
  destruct (file_allocatePage filePtr (disk s)) as [[code|p] w] eqn:Hal.
  - injection H as <- <-. destruct Hp as [Hv Hp]. by split.
  - assert (Hk : ∀ r1 s1, allocBuf (with_disk w s) = (r1, s1) → page_kept i s s1).
    { intros r1 s1 Ha.
      destruct (page_kept_allocBuf (with_disk w s) r1 s1 i) as [? ? ? ? ? ? ?];
        [by apply consistent_with_disk|done|done|]. by split. }
    destruct (allocBuf (with_disk w s)) as [[i0|e|] s1] eqn:Ha;
      injection H as <- <-; [|by apply (Hk (Raise e))|by apply (Hk FuelExhausted)].
    assert (i0 ≠ i).
    { intros ->. apply allocBuf_Ok_unpinned in Ha.
      change (desc (with_disk w s) i) with (desc s i) in Ha.
      rewrite pinned_not_unpinned in Ha by done. discriminate. }
    pose proof (Hk _ _ eq_refl) as [Hv Hf Hpn Hd Hpin Hpage Hi].
    assert (Hdesc : desc (with_desc i0 (BufDesc_Set filePtr (page_number p) (desc s1 i0))
                      (hashTable_insert filePtr (page_number p) i0 (with_page i0 p s1))) i
                    = desc s1 i) by (by rewrite desc_with_desc_ne).
    split; rewrite ?Hdesc; try done.
    + unfold page_at in *. simpl. rewrite list_lookup_total_insert_ne by lia. done.
    + simpl. rewrite lookup_insert_ne; [done|].
      intros Heq. rewrite <- Heq in Hidx. by rewrite (Hnew p w Hal) in Hidx.
Qed.

(** ** [flushFile] *)

Lemma flushFile_body_other_index filePtr i s r s' (f' : File) (pn : PageId) :
  flushFile_body filePtr i s = (r, s') → f' ≠ filePtr →
  hashTable s' !! (f', pn) = hashTable s !! (f', pn).
Proof.
  unfold flushFile_body. cbv zeta. intros H Hne. revert H.
  destruct (file (desc s i) =? filePtr); [|by intros [= <- <-]].
  destruct (negb (valid (desc s i))); [by intros [= <- <-]|].
  destruct (0 <? pinCnt (desc s i)); [by intros [= <- <-]|].
  destruct (dirty (desc s i)); [|by intros [= <- <-]].
  unfold bind at 1, File_writePage.
  destruct (file_writePage _ _ (disk s)) as [[code|] w]; [by intros [= <- <-]|].
  unfold bind, modify. intros [= <- <-]. simpl.
  apply lookup_delete_ne. congruence.
Qed.

(** X9. [flushFile] of a file, whether it returns or raises, touches no
    frame of another file (descriptor, bytes and index entries are as they
    were) and no pinned frame of any file. *)
Theorem flushFile_other_files filePtr s r s' :
  flushFile filePtr s = (r, s') →
  (∀ i, file (desc s i) ≠ filePtr →
        desc s' i = desc s i ∧ page_at s' i = page_at s i) ∧
  (∀ (f' : File) (pn : PageId), f' ≠ filePtr →
        hashTable s' !! (f', pn) = hashTable s !! (f', pn)) ∧
  (∀ i, pinned (desc s i) → desc s' i = desc s i ∧ page_at s' i = page_at s i).
Proof.
  intros H. pose proof (flushFile_partly_flushed _ _ _ _ H) as [_ Hp _ _ _ Hd _].
  assert (Hpage : ∀ i, page_at s' i = page_at s i)
    by (intros i; unfold page_at; by rewrite Hp).
  split; [|split].
  - intros i Hf. split; [|done]. by destruct (Hd i) as [E|(Hf' & _)].
  - intros f' pn Hne. revert H. unfold flushFile.
    apply (for_frames_ind
             (fun s s' => hashTable s' !! (f', pn) = hashTable s !! (f', pn))
             (flushFile_body filePtr)); [done|congruence|].
    intros i s0 r0 s0' Hb. by apply (flushFile_body_other_index filePtr i s0 r0).
  - intros i [Hv Hpin]. split; [|done].
    destruct (Hd i) as [E|(_ & _ & Hz & _)]; [done|lia].
Qed.

Lemma flushFile_body_Ok filePtr i s s' :
  filePtr ≠ NULL → flushFile_body filePtr i s = (Ok tt, s') →
  (file (desc s' i) = filePtr →
   valid (desc s' i) = true ∧ pinCnt (desc s' i) = 0 ∧ dirty (desc s' i) = false).
Proof.
  intros Hnull. unfold flushFile_body. cbv zeta.
  destruct (N.eqb_spec (file (desc s i)) filePtr) as [Hf|Hf];
    [|intros [= <-]; congruence].
  destruct (valid (desc s i)) eqn:Hv; cbn [negb]; [|discriminate].
  destruct (N.ltb_spec 0 (pinCnt (desc s i))) as [|Hp]; [discriminate|].
  destruct (dirty (desc s i)) eqn:Hd; [|intros [= <-] _; repeat split; [done|lia|done]].
  unfold bind at 1, File_writePage.
  destruct (file_writePage _ _ (disk s)) as [[code|] w]; [discriminate|].
  unfold bind, modify. intros [= <-].
  rewrite desc_with_desc_eq.
  - simpl. intros Heq. unfold NULL in *. congruence.
  - simpl. rewrite length_insert. by apply valid_in_range.
Qed.

Lemma flushFile_Ok_clean filePtr s s' :
  filePtr ≠ NULL → flushFile filePtr s = (Ok tt, s') →
  ∀ i, i < numBufs s → file (desc s' i) = filePtr →
       valid (desc s' i) = true ∧ pinCnt (desc s' i) = 0 ∧ dirty (desc s' i) = false.
Proof.
  intros Hnull H i Hi.
  assert (Hin : i ∈ frame_ids (numBufs s)).
  { unfold frame_ids. apply list_elem_of_fmap. exists (N.to_nat i).
    split; [lia|]. apply elem_of_seq. lia. }
  revert H Hin. unfold flushFile. generalize (frame_ids (numBufs s)) as frames.
  intros frames. clear Hi. revert s.
  induction frames as [|j frames IH]; intros s H Hin; [by apply elem_of_nil in Hin|].
  simpl in H. unfold bind in H.
  destruct (flushFile_body filePtr j s) as [[[]|e|] s1] eqn:Hb; try discriminate.
  apply elem_of_cons in Hin as [->|Hin]; [|by apply (IH s1)].
  pose proof (flushFile_body_Ok _ _ _ _ Hnull Hb) as Hj.
  assert (Hpf : partly_flushed filePtr s1 s').
  { revert H. apply (for_frames_ind (partly_flushed filePtr) (flushFile_body filePtr)).
    - apply partly_flushed_refl.
    - apply partly_flushed_trans.
    - apply flushFile_body_partly_flushed. }
  destruct (pf_desc _ _ _ Hpf j) as [E|(_ & _ & _ & Hd1 & E)].
  - rewrite E. done.
  - rewrite E. simpl. intros Heq. unfold NULL in *. congruence.
Qed.

Lemma flushFile_body_noop filePtr i s :
  (file (desc s i) = filePtr →
   valid (desc s i) = true ∧ pinCnt (desc s i) = 0 ∧ dirty (desc s i) = false) →
  flushFile_body filePtr i s = (Ok tt, s).
Proof.
  intros Hq. unfold flushFile_body. cbv zeta.
  destruct (N.eqb_spec (file (desc s i)) filePtr) as [Hf|]; [|done].
  destruct (Hq Hf) as (-> & -> & ->). done.
Qed.

(** X10. After a [flushFile] that returned, no dirty page of the file is
    left in the pool: every frame the file still owns is valid, unpinned
    and clean; and a second [flushFile] of the file right away returns
    without changing anything. *)
Theorem flushFile_leaves_clean filePtr s s' :
  filePtr ≠ NULL → flushFile filePtr s = (Ok tt, s') →
  (∀ i, i < numBufs s → file (desc s' i) = filePtr →
        valid (desc s' i) = true ∧ pinCnt (desc s' i) = 0 ∧ dirty (desc s' i) = false) ∧
  flushFile filePtr s' = (Ok tt, s').
Proof.
  intros Hnull H. pose proof (flushFile_Ok_clean _ _ _ Hnull H) as Hclean.
  split; [done|].
  pose proof (flushFile_partly_flushed _ _ _ _ H) as [Hn _ _ _ _ _ _].
  unfold flushFile. rewrite Hn.
  assert (Hall : ∀ i, i ∈ frame_ids (numBufs s) → i < numBufs s).
  { intros i Hi. unfold frame_ids in Hi. apply list_elem_of_fmap in Hi as (k & -> & Hk).
    apply elem_of_seq in Hk. lia. }
  revert Hall. generalize (frame_ids (numBufs s)) as frames.
  induction frames as [|j frames IH]; intros Hall; [done|].
  cbn [for_frames]. unfold bind.
  rewrite flushFile_body_noop by (apply Hclean, Hall; by left).
  apply IH. intros i Hi. apply Hall. by right.
Qed.

(** ** [disposePage] *)

(** X11. After [disposePage], however [deletePage] ended, the page is out
    of the pool: the index no longer maps it, so an [unPinPage] of it is a
    no-op, whatever pins were held; the other index entries, the other
    frames and the bytes in the pool are as they were.  On a page that is
    not in the pool the call changes nothing at all: the file is not asked
    to delete it. *)
Theorem disposePage_forgets filePtr pageNum s r s' :
  disposePage filePtr pageNum s = (r, s') →
  hashTable s' !! (filePtr, pageNum) = None ∧
  (∀ dirtyIn, unPinPage filePtr pageNum dirtyIn s' = (Ok tt, s')) ∧
  (∀ key, key ≠ (filePtr, pageNum) → hashTable s' !! key = hashTable s !! key) ∧
  (∀ j, hashTable s !! (filePtr, pageNum) ≠ Some j → desc s' j = desc s j) ∧
  bufPool s' = bufPool s ∧
  (hashTable s !! (filePtr, pageNum) = None → r = Ok tt ∧ s' = s).
Proof.
  intros H.
  assert (Hfacts : hashTable s' !! (filePtr, pageNum) = None ∧
    (∀ key, key ≠ (filePtr, pageNum) → hashTable s' !! key = hashTable s !! key) ∧
    (∀ j, hashTable s !! (filePtr, pageNum) ≠ Some j → desc s' j = desc s j) ∧
    bufPool s' = bufPool s ∧
    (hashTable s !! (filePtr, pageNum) = None → r = Ok tt ∧ s' = s)).
  { revert H. unfold disposePage, hashTable_lookup.
    destruct (hashTable s !! (filePtr, pageNum)) as [fid|] eqn:Hl.
    - unfold bind, modify, File_deletePage.
      cbn [disk hashTable_remove with_hashTable with_desc].
      destruct (file_deletePage filePtr pageNum (disk s)) as [[code|] w];
        intros [= <- <-]; simpl;
        (split; [apply lookup_delete_eq|]);
        (split; [intros key Hk; by apply lookup_delete_ne|]);
        (split; [|done]);
        intros j Hj; apply (desc_with_desc_ne s fid j); congruence.
    - intros [= <- <-]. done. }
  destruct Hfacts as (Hnone & Hkeys & Hdesc & Hpool & Hnop).
  split; [done|]. split; [|done].
  intros dirtyIn. unfold unPinPage, hashTable_lookup. by rewrite Hnone.
Qed.

(** ** Free frames *)

Lemma desc_with_desc s i k d :
  desc (with_desc i d s) k = desc s k ∨ (k = i ∧ desc (with_desc i d s) k = d).
Proof.
  destruct (decide (i = k)) as [<-|Hne].
  - destruct (decide (N.to_nat i < length (bufDescTable s))%nat).
    + right. split; [done|]. by apply desc_with_desc_eq.
    + left. unfold desc, with_desc; simpl. by rewrite list_insert_ge by lia.
  - left. by apply desc_with_desc_ne.
Qed.

Lemma tidy_with_desc s i d :
  tidy s → frameNo d = frameNo (desc s i) →
  (valid d = false → pinCnt d = 0 ∧ dirty d = false ∧ file d = NULL) →
  tidy (with_desc i d s).
Proof.
  intros [Hfree Hno] Hfr Hd. split.
  - intros k. destruct (desc_with_desc s i k d) as [->|[-> ->]]; [apply Hfree|done].
  - intros k Hk. destruct (desc_with_desc s i k d) as [->|[-> ->]]; [by apply Hno|].
    rewrite Hfr. by apply Hno.
Qed.

Lemma tidy_same_table s s' :
  tidy s → bufDescTable s' = bufDescTable s → numBufs s' = numBufs s → tidy s'.
Proof.
  intros [Hfree Hno] Ht Hn. unfold tidy, desc in *. rewrite Ht, Hn. done.
Qed.

Lemma tidy_Clear s i : tidy s → tidy (with_desc i (BufDesc_Clear (desc s i)) s).
Proof. intros Ht. by apply tidy_with_desc. Qed.

Lemma tidy_scanned s sc : tidy s → scanned s sc → tidy sc.
Proof.
  intros [Hfree Hno] Hsc. split.
  - intros i. destruct (scanned_fields s sc i Hsc) as (-> & _ & _ & -> & -> & ->).
    apply Hfree.
  - intros i Hi. destruct (scanned_fields s sc i Hsc) as (_ & _ & -> & _).
    apply Hno. by destruct Hsc as [<- _ _ _ _ _ _].
Qed.

Lemma allocBuf_tidy s r s' : tidy s → allocBuf s = (r, s') → tidy s'.
Proof.
  intros Ht H. destruct r as [i|e|]; [| |by apply allocBuf_FuelExhausted in H as ->];
    (apply allocBuf_effect in H as (sc & Hsc & Hcase); [|done]);
    pose proof (tidy_scanned _ _ Ht Hsc) as Htc;
    cbv zeta in Hcase;
    destruct Hcase as [(_ & ->)|[(c & w & _ & ->)|[(_ & Hv & ->)|(_ & Hv & _ & w & ->)]]];
    try (by apply (tidy_same_table sc)).
  all: apply tidy_with_desc; [by apply (tidy_same_table sc)|done|done].
Qed.

Lemma tidy_install s i filePtr pageNum (pg : Page) :
  tidy s →
  tidy (with_desc i (BufDesc_Set filePtr pageNum (desc s i))
          (hashTable_insert filePtr pageNum i (with_page i pg s))).
Proof.
  intros Ht. apply tidy_with_desc; [by apply (tidy_same_table s)|done|done].
Qed.

Lemma readPage_tidy filePtr pageNum s r s' :
  consistent s → tidy s → readPage filePtr pageNum s = (r, s') → tidy s'.
Proof.
  intros Hc Ht H. destruct (hashTable s !! (filePtr, pageNum)) as [j|] eqn:Hl.
  - destruct Hc as (_ & _ & Hcc). destruct (Hcc _ _ _ Hl) as (Hv & _).
    destruct (readPage_hit _ _ _ _ Hl) as [E|[_ E]]; rewrite E in H;
      injection H as <- <-; [|done].
    apply tidy_with_desc.
    + apply tidy_with_desc; [done|done|]. simpl. congruence.
    + rewrite desc_with_desc_eq by (by apply valid_in_range). done.
    + simpl. congruence.
  - rewrite (readPage_miss _ _ _ Hl) in H.
    destruct (allocBuf s) as [[i0|e|] s1] eqn:Ha;
      pose proof (allocBuf_tidy _ _ _ Ht Ha) as Ht1.
    + destruct (file_readPage filePtr pageNum (disk s1)) as [[code|pg] w];
        injection H as <- <-; [by apply (tidy_same_table s1)|].
      apply (tidy_install (with_disk w s1)). by apply (tidy_same_table s1).
    + by injection H as <- <-.
    + by injection H as <- <-.
Qed.

Lemma unPinPage_tidy filePtr pageNum dirtyIn s r s' :
  tidy s → unPinPage filePtr pageNum dirtyIn s = (r, s') → tidy s'.
Proof.
  intros Ht. unfold unPinPage, hashTable_lookup.
  destruct (hashTable s !! (filePtr, pageNum)) as [f|]; [|by intros [= <- <-]].
  destruct (pinCnt (desc s f) =? 0); [by intros [= <- <-]|].
  destruct (N.ltb_spec 0 (pinCnt (desc s f))) as [Hp|]; [|by intros [= <- <-]].
  assert (Hv : valid (desc s f) = true).
  { destruct (valid (desc s f)) eqn:Hv; [done|].
    destruct Ht as [Hfree _]. destruct (Hfree f Hv) as (Hz & _). lia. }
  pose proof (valid_in_range s f Hv) as Hin.
  destruct dirtyIn; unfold bind, modify, ret; intros [= <- <-].
  - apply tidy_with_desc.
    + apply tidy_with_desc; [done|done|]. simpl. congruence.
    + by rewrite desc_with_desc_eq.
    + rewrite desc_with_desc_eq by done. simpl. congruence.
  - apply tidy_with_desc; [done|done|]. simpl. congruence.
Qed.

Lemma tidy_partly_flushed filePtr s s' : tidy s → partly_flushed filePtr s s' → tidy s'.
Proof.
  intros [Hfree Hno] [Hn _ _ _ _ Hd _]. split.
  - intros i. destruct (Hd i) as [->|(_ & _ & _ & _ & ->)]; [apply Hfree|done].
  - intros i Hi. rewrite Hn in Hi.
    destruct (Hd i) as [->|(_ & _ & _ & _ & ->)]; by apply Hno.
Qed.

Lemma allocPage_tidy filePtr s r s' :
  tidy s → allocPage filePtr s = (r, s') → tidy s'.
Proof.
  intros Ht H. rewrite allocPage_unfold in H.
  destruct (file_allocatePage filePtr (disk s)) as [[code|p] w].
  - injection H as <- <-. by apply (tidy_same_table s).
  - assert (Htw : tidy (with_disk w s)) by (by apply (tidy_same_table s)).
    destruct (allocBuf (with_disk w s)) as [[i0|e|] s1] eqn:Ha;
      pose proof (allocBuf_tidy _ _ _ Htw Ha) as Ht1; injection H as <- <-;
      [|done|done].
    by apply tidy_install.
Qed.

Lemma disposePage_tidy filePtr pageNum s r s' :
  tidy s → disposePage filePtr pageNum s = (r, s') → tidy s'.
Proof.
  intros Ht. unfold disposePage, hashTable_lookup.
  destruct (hashTable s !! (filePtr, pageNum)) as [fid|]; [|by intros [= <- <-]].
  unfold bind, modify, File_deletePage.
  cbn [disk hashTable_remove with_hashTable with_desc].
  pose proof (tidy_Clear s fid Ht) as Htc.
  destruct (file_deletePage filePtr pageNum (disk s)) as [[code|] w];
    intros [= <- <-]; by apply (tidy_same_table _ _ Htc).
Qed.

Lemma frame_ids_lookup (n i : N) : i < n → frame_ids n !! N.to_nat i = Some i.
Proof.
  intros Hi. unfold frame_ids. rewrite list_lookup_fmap, lookup_seq_lt by lia.
  simpl. f_equal. lia.
Qed.

Lemma tidy_BufMgr_new bufs (w : World) : tidy (BufMgr_new bufs w).
Proof.
  split.
  - intros i _. unfold desc, BufMgr_new; simpl.
    rewrite list_lookup_total_alt, list_lookup_fmap.
    by destruct (frame_ids bufs !! N.to_nat i).
  - intros i Hi. simpl in Hi. unfold desc, BufMgr_new; simpl.
    rewrite list_lookup_total_alt, list_lookup_fmap, frame_ids_lookup by done. done.
Qed.

Lemma reachable_tidy s : reachable s → tidy s.
Proof.
  induction 1 as [bufs w|s filePtr pageNum r s' Hr IH H|s filePtr pageNum b r s' _ IH H
                  |s filePtr r s' _ IH H|s filePtr r s' _ IH Hnew H
                  |s filePtr pageNum r s' _ IH H].
  - apply tidy_BufMgr_new.
  - by apply (readPage_tidy filePtr pageNum s r s'); [apply reachable_consistent|..].
  - by apply (unPinPage_tidy filePtr pageNum b s r).
  - apply (tidy_partly_flushed filePtr s); [done|].
    by apply (flushFile_partly_flushed filePtr s r).
  - by apply (allocPage_tidy filePtr s r).
  - by apply (disposePage_tidy filePtr pageNum s r).
Qed.

(** X12. In every state a manager goes through when each call of
    [allocPage] finds the file allocating a page that is not in the pool
    ([allocates_new], a premise of [reachable]), a frame that holds no
    page has pin count 0, is not dirty and has no file; a pinned or a dirty
    frame therefore holds a page and is in the index; and every frame's
    [frameNo] is its own number, so that the page [flushFile] writes for
    frame [i] is the one in [bufPool[i]]. *)
Theorem free_frames_invariant s :
  reachable s →
  (∀ i, valid (desc s i) = false →
        pinCnt (desc s i) = 0 ∧ dirty (desc s i) = false ∧ file (desc s i) = NULL) ∧
  (∀ i, 0 < pinCnt (desc s i) ∨ dirty (desc s i) = true →
        valid (desc s i) = true ∧
        hashTable s !! (file (desc s i), pageNo (desc s i)) = Some i) ∧
  (∀ i, i < numBufs s →
        frameNo (desc s i) = i ∧ page_at s (frameNo (desc s i)) = page_at s i).
Proof.
  intros Hr. pose proof (reachable_tidy s Hr) as [Hfree Hno].
  pose proof (reachable_consistent s Hr) as (_ & Hb & _).
  split; [done|]. split.
  - intros i Hi.
    assert (Hv : valid (desc s i) = true).
    { destruct (valid (desc s i)) eqn:Hv; [done|].
      destruct (Hfree i Hv) as (Hz & Hd & _). destruct Hi; [lia|congruence]. }
    split; [done|by apply Hb].
  - intros i Hi. by rewrite Hno.
Qed.

(** ** The destructor *)

Lemma BufMgr_delete_frames (frames : list FrameId) s :
  for_frames BufMgr_delete_body frames s =
  write_back (filter (λ i, dirty (desc s i) = true) frames) s.
Proof.
  revert s. induction frames as [|i frames IH]; intros s; [done|].
  rewrite filter_cons. cbn [for_frames]. unfold bind at 1, BufMgr_delete_body.
  destruct (decide (dirty (desc s i) = true)) as [Hd|Hd].
  - rewrite Hd. unfold write_back. cbn [for_frames]. unfold bind, File_writePage.
    destruct (file_writePage _ _ (disk s)) as [[code|] w]; [done|].
    exact (IH (with_disk w s)).
  - apply not_true_is_false in Hd. rewrite Hd. unfold ret. apply IH.
Qed.

Lemma write_back_table (frames : list FrameId) s r s' :
  write_back frames s = (r, s') →
  numBufs s' = numBufs s ∧ bufDescTable s' = bufDescTable s ∧
  bufPool s' = bufPool s ∧ hashTable s' = hashTable s ∧ clockHand s' = clockHand s.
Proof.
  unfold write_back.
  apply (for_frames_ind
           (fun s s' => numBufs s' = numBufs s ∧ bufDescTable s' = bufDescTable s ∧
                        bufPool s' = bufPool s ∧ hashTable s' = hashTable s ∧
                        clockHand s' = clockHand s)).
  - done.
  - intros s1 s2 s3 (-> & -> & -> & -> & ->) (-> & -> & -> & -> & ->). done.
  - intros i s0 r0 s0'. unfold File_writePage.
    destruct (file_writePage _ _ (disk s0)) as [[code|] w]; by intros [= <- <-].
Qed.

(** X13. The destructor writes back the dirty frames, each once, in the
    order of the frames, with the bytes of the frame and through the file
    of its descriptor, and stops at the first write that fails; it changes
    nothing in the manager, and with no dirty frame it touches no file.  It
    does not test [valid], but in the states a manager goes through every
    frame it writes holds a page. *)
Theorem BufMgr_delete_writes_dirty s :
  reachable s →
  BufMgr_delete s = write_back (dirty_frames s) s ∧
  (∀ i, i ∈ dirty_frames s → i < numBufs s ∧ valid (desc s i) = true) ∧
  (∀ r s', BufMgr_delete s = (r, s') →
     numBufs s' = numBufs s ∧ bufDescTable s' = bufDescTable s ∧
     bufPool s' = bufPool s ∧ hashTable s' = hashTable s ∧ clockHand s' = clockHand s) ∧
  ((∀ i, i < numBufs s → dirty (desc s i) = false) → BufMgr_delete s = (Ok tt, s)).
Proof.
  intros Hr.
  assert (E : BufMgr_delete s = write_back (dirty_frames s) s)
    by apply BufMgr_delete_frames.
  split; [done|]. split; [|split].
  - intros i Hi. apply list_elem_of_filter in Hi as [Hd Hi].
    apply list_elem_of_fmap in Hi as (k & -> & Hk). apply elem_of_seq in Hk.
    split; [lia|].
    destruct (valid (desc s (N.of_nat k))) eqn:Hv; [done|].
    pose proof (reachable_tidy s Hr) as [Hfree _].
    destruct (Hfree _ Hv) as (_ & Hd' & _). congruence.
  - intros r s' H. rewrite E in H. by apply write_back_table in H.
  - intros Hclean. rewrite E.
    replace (dirty_frames s) with (@nil FrameId); [done|].
    symmetry. apply elem_of_nil_inv. intros i Hi.
    apply list_elem_of_filter in Hi as [Hd Hi].
    apply list_elem_of_fmap in Hi as (k & -> & Hk). apply elem_of_seq in Hk.
    rewrite Hclean in Hd by lia. discriminate.
Qed.

(** ** [printSelf] *)

Lemma validFrames_fold (frames : list FrameId) s (n : Z) :
  (0 ≤ n)%Z → (n + Z.of_nat (length frames) < 2 ^ 31)%Z →
  fold_left (fun validFrames i =>
               if valid (desc s i) then wrap_int (validFrames + 1) else validFrames)
            frames n
  = (n + Z.of_nat (length (filter (λ i, valid (desc s i) = true) frames)))%Z.
Proof.
  revert n. induction frames as [|i frames IH]; intros n Hn Hlen.
  - rewrite filter_nil. simpl. lia.
  - rewrite filter_cons. cbn [fold_left]. cbn [length] in Hlen.
    destruct (decide (valid (desc s i) = true)) as [Hv|Hv].
    + rewrite Hv. assert (Hw : wrap_int (n + 1) = (n + 1)%Z).
      { unfold wrap_int. change (2 ^ 31)%Z with 2147483648%Z in *.
        change (2 ^ 32)%Z with 4294967296%Z. rewrite Z.mod_small by lia. lia. }
      rewrite Hw, IH by lia. simpl length. lia.
    + apply not_true_is_false in Hv. rewrite Hv. apply IH; lia.
Qed.

Lemma length_frame_ids (n : N) : length (frame_ids n) = N.to_nat n.
Proof. unfold frame_ids. by rewrite length_fmap, length_seq. Qed.

Lemma elem_of_frame_ids (n i : N) : i ∈ frame_ids n ↔ i < n.
Proof.
  unfold frame_ids. rewrite list_elem_of_fmap. split.
  - intros (k & -> & Hk). apply elem_of_seq in Hk. lia.
  - intros Hi. exists (N.to_nat i). split; [lia|]. apply elem_of_seq. lia.
Qed.

Lemma NoDup_frame_ids (n : N) : NoDup (frame_ids n).
Proof.
  unfold frame_ids. apply NoDup_fmap_2_strong; [|apply NoDup_seq].
  intros x y _ _ Hxy. lia.
Qed.

Lemma valid_frames_index s :
  consistent s →
  filter (λ i, valid (desc s i) = true) (frame_ids (numBufs s))
  ≡ₚ (map_to_list (hashTable s)).*2.
Proof.
  intros ((_ & _ & Hidx) & Hb & Hc). apply NoDup_Permutation.
  - apply NoDup_filter, NoDup_frame_ids.
  - apply NoDup_fmap_2_strong; [|apply NoDup_map_to_list].
    intros [[f1 p1] i1] [[f2 p2] i2] H1 H2 Heq. simpl in Heq. subst i2.
    apply elem_of_map_to_list in H1, H2.
    destruct (Hc _ _ _ H1) as (_ & <- & <-). destruct (Hc _ _ _ H2) as (_ & <- & <-).
    done.
  - intros i. rewrite list_elem_of_filter, elem_of_frame_ids, list_elem_of_fmap. split.
    + intros [Hv _]. exists ((file (desc s i), pageNo (desc s i)), i).
      split; [done|]. apply elem_of_map_to_list. by apply Hb.
    + intros ([[f1 p1] i1] & -> & H1). simpl. apply elem_of_map_to_list in H1.
      destruct (Hc _ _ _ H1) as (Hv & _). split; [done|]. by apply (Hidx (f1, p1)).
Qed.

(** X14. Where the index and the descriptors agree (as in every state a
    manager goes through), the total of valid frames [printSelf] prints is
    the number of pages in the index, for a pool of less than [2^31]
    frames. *)
Theorem printSelf_counts_index s :
  consistent s → numBufs s < 2 ^ 31 →
  printSelf_validFrames s = Z.of_nat (size (hashTable s)) ∧
  (0 ≤ printSelf_validFrames s ≤ Z.of_N (numBufs s))%Z.
Proof.
  intros Hc Hn. unfold printSelf_validFrames.
  assert (Hlen : length (frame_ids (numBufs s)) = N.to_nat (numBufs s))
    by apply length_frame_ids.
  assert (H31 : (Z.of_N (numBufs s) < 2 ^ 31)%Z).
  { change (2 ^ 31)%Z with (Z.of_N (2 ^ 31)). lia. }
  rewrite validFrames_fold by (rewrite ?Hlen; lia).
  pose proof (length_filter (λ i, valid (desc s i) = true) (frame_ids (numBufs s))) as Hle.
  rewrite (valid_frames_index s Hc).
  rewrite (valid_frames_index s Hc) in Hle.
  rewrite length_fmap, length_map_to_list in *. split; lia.
Qed.

(** ** When [allocBuf] evicts nothing, and when it cannot fail *)

(** X15. [allocBuf] touches the index and the files only to evict a page:
    when it claims a free frame, and when it gives up with
    [BufferExceededException], the index, the files and the bytes in the
    pool are as they were. *)
Theorem allocBuf_without_eviction s r s' :
  allocBuf s = (r, s') →
  r = Raise BufferExceededException ∨ (∃ f, r = Ok f ∧ valid (desc s f) = false) →
  hashTable s' = hashTable s ∧ disk s' = disk s ∧ bufPool s' = bufPool s.
Proof.
  intros H Hr. pose proof (allocBuf_sizes _ _ _ H) as (_ & Hpool & _).
  assert (Hne : r ≠ FuelExhausted) by (destruct Hr as [->|(f & -> & _)]; done).
  apply allocBuf_effect in H as (sc & Hsc & Hcase); [|done]. cbv zeta in Hcase.
  set (h := clockHand (advanceClock sc)) in *.
  destruct (scanned_fields s sc h Hsc) as (_ & _ & _ & _ & _ & Hv).
  destruct Hsc as [_ _ Hh _ Hd _ _].
  destruct Hcase as [(_ & ->)|[(c & w & -> & _)|[(_ & _ & ->)|(-> & Hvh & _ & w & _)]]].
  - done.
  - destruct Hr as [[=]|(f & [=] & _)].
  - done.
  - destruct Hr as [[=]|(f & [= <-] & Hf)]. congruence.
Qed.

Lemma allocBuf_loop_no_pins fuel s n r s' :
  numBufs s ≠ 0 → (∀ i, i < numBufs s → unpinned (desc s i) = true) →
  allocBuf_loop fuel 0 s = Some (n, r, s') → r ≠ Raise BufferExceededException.
Proof.
  revert s n. induction fuel as [|fuel IH]; intros s n Hn Hun; [discriminate|].
  rewrite allocBuf_loop_S.
  destruct (allocBuf_body 0 s) as [pcount1 s1|r1 s1] eqn:Hb.
  - destruct (allocBuf_loop fuel pcount1 s1) as [[[n1 r2] s2]|] eqn:E; [|discriminate].
    intros [= <- <- <-].
    apply allocBuf_body_Continue in Hb as (_ & _ & Hv & Hsc & Hcase).
    pose proof (Hun _ (advanceClock_lt s Hn)) as Hh.
    unfold unpinned in Hh. rewrite Hv in Hh. cbn [negb orb] in Hh.
    apply N.eqb_eq in Hh.
    destruct Hcase as [(Hp & _)|(_ & _ & -> & _)]; [lia|].
    assert (Hns : numBufs s1 = numBufs s) by (by destruct Hsc).
    apply (IH s1 n1); [by rewrite Hns| |done].
    intros i Hi. rewrite (scanned_unpinned s s1) by done. apply Hun. by rewrite <- Hns.
  - intros [= <- <- <-]. apply allocBuf_body_Finish_cases in Hb. cbv zeta in Hb.
    destruct Hb as [(Hz & _)|[(_ & _ & -> & _)|(_ & _ & _ & _ & Hcase)]];
      [congruence|done|].
    by destruct Hcase as [(_ & -> & _)|[(_ & w & _ & -> & _)|(_ & c & w & _ & -> & _)]].
Qed.

(** X16. With at least one frame and no frame pinned, [allocBuf] never
    raises [BufferExceededException]: it returns a frame, or passes on the
    failure of the write-back of a dirty victim. *)
Theorem allocBuf_no_pins s :
  0 < numBufs s → numBufs s < 2 ^ 32 →
  (∀ i, i < numBufs s → unpinned (desc s i) = true) →
  (∃ f s', allocBuf s = (Ok f, s') ∧ f < numBufs s) ∨
  (∃ code s', allocBuf s = (Raise (FileException code), s')).
Proof.
  intros Hn0 Hn Hun.
  destruct (allocBuf_loop_enough s Hn0 Hn) as [[[n r] s'] E].
  assert (Ea : allocBuf s = (r, s')) by (unfold allocBuf; by rewrite E).
  assert (Hnz : numBufs s ≠ 0) by lia.
  pose proof (allocBuf_loop_no_pins _ _ _ _ _ Hnz Hun E) as Hne.
  apply allocBuf_loop_outcome in E as [_ [[-> Hlt]|[->|[code ->]]]].
  - left. eexists _, _. split; [done|]. apply Hlt. lia.
  - done.
  - right. by eexists _, _.
Qed.

End MoreProperties.

(** * The further properties on runs of the manager *)

Lemma st_victim_consistent : consistent st_victim.
Proof. apply reachable_consistent, st_victim_reachable. Qed.

Lemma st_victim_pinned : pinned (desc st_victim 1).
Proof. split; vm_compute; reflexivity. Qed.

Lemma st_victim_allocates_new : allocates_new 1 st_victim.
Proof.
  intros p w H. vm_compute in H. injection H as <- <-. vm_compute. reflexivity.
Qed.

(** X1 on a run: two frames, the hand on frame 1. *)
Lemma advanceClock_cycle_witness :
  clockHand st_victim < numBufs st_victim ∧ numBufs st_victim < 2 ^ 32 ∧
  Nat.iter (N.to_nat (numBufs st_victim)) advanceClock st_victim = st_victim.
Proof.
  assert (Hh : clockHand st_victim < numBufs st_victim) by (vm_compute; reflexivity).
  assert (Hn : numBufs st_victim < 2 ^ 32) by (vm_compute; reflexivity).
  split; [exact Hh|]. split; [exact Hn|].
  exact (proj2 (advanceClock_cycle st_victim Hh Hn)).
Defined.

(** X2 on a run: both frames pinned, three passes. *)
Lemma allocBuf_all_pinned_witness :
  0 < numBufs st_full ∧ numBufs st_full < 2 ^ 32 ∧
  (∀ i, i < numBufs st_full → pinned (desc st_full i)) ∧
  (allocBuf st_full).1 = Raise BufferExceededException.
Proof.
  assert (H0 : 0 < numBufs st_full) by (vm_compute; reflexivity).
  assert (Hn : numBufs st_full < 2 ^ 32) by (vm_compute; reflexivity).
  assert (Hall : ∀ i, i < numBufs st_full → pinned (desc st_full i)).
  { intros i Hi. change (numBufs st_full) with 2 in Hi.
    assert (Hcase : i = 0 ∨ i = 1) by lia.
    destruct Hcase as [->| ->]; split; vm_compute; reflexivity. }
  split; [exact H0|]. split; [exact Hn|]. split; [exact Hall|].
  destruct (allocBuf_all_pinned st_full H0 Hn Hall) as (_ & E & _).
  rewrite E. reflexivity.
Defined.

(** X3 on a run: frame 1 is pinned while frame 0 is evicted. *)
Lemma allocBuf_keeps_pinned_witness :
  allocBuf st_victim = (Ok 0, st_evicted) ∧ pinned (desc st_victim 1) ∧
  desc st_evicted 1 = desc st_victim 1.
Proof.
  assert (E : allocBuf st_victim = (Ok 0, st_evicted)) by (vm_compute; reflexivity).
  split; [exact E|]. split; [exact st_victim_pinned|].
  exact (proj1 (allocBuf_keeps_pinned st_victim (Ok 0) st_evicted 1 E st_victim_pinned)).
Defined.

(** X4 on a run: page 3 is read while page 2 is pinned. *)
Lemma readPage_keeps_pinned_witness :
  consistent st_victim ∧ pinned (desc st_victim 1) ∧
  page_kept 1 st_victim (after (readPage 1 3) st_victim).
Proof.
  split; [exact st_victim_consistent|]. split; [exact st_victim_pinned|].
  apply (readPage_keeps_pinned 1 3 st_victim (readPage 1 3 st_victim).1 _ 1
           st_victim_consistent st_victim_pinned).
  apply surjective_pairing.
Defined.

(** X5 on a run: page 3, read twice. *)
Lemma readPage_again_witness :
  well_sized st_victim ∧
  readPage 1 3 st_victim = (Ok 0, after (readPage 1 3) st_victim) ∧
  ∃ s2, readPage 1 3 (after (readPage 1 3) st_victim) = (Ok 0, s2) ∧
        disk s2 = disk (after (readPage 1 3) st_victim).
Proof.
  assert (Hw : well_sized st_victim) by exact (proj1 st_victim_consistent).
  assert (E : readPage 1 3 st_victim = (Ok 0, after (readPage 1 3) st_victim))
    by (vm_compute; reflexivity).
  split; [exact Hw|]. split; [exact E|].
  destruct (readPage_again 1 3 st_victim 0 _ Hw E) as (s2 & E2 & _ & Hd & _).
  exists s2. split; [exact E2|exact Hd].
Defined.

(** X6 on a run: page 3 read, then unpinned. *)
Lemma readPage_unPinPage_witness :
  well_sized st_victim ∧
  readPage 1 3 st_victim = (Ok 0, after (readPage 1 3) st_victim) ∧
  ∃ s2, unPinPage 1 3 true (after (readPage 1 3) st_victim) = (Ok tt, s2) ∧
        dirty (desc s2 0) = true.
Proof.
  assert (Hw : well_sized st_victim) by exact (proj1 st_victim_consistent).
  assert (E : readPage 1 3 st_victim = (Ok 0, after (readPage 1 3) st_victim))
    by (vm_compute; reflexivity).
  split; [exact Hw|]. split; [exact E|].
  destruct (readPage_unPinPage 1 3 true st_victim 0 _ Hw E) as (s2 & E2 & _ & Hd & _).
  exists s2. split; [exact E2|exact Hd].
Defined.

(** X7 on a run: the file allocates page 4, which goes to frame 0. *)
Lemma allocPage_then_readPage_witness :
  well_sized st_victim ∧ allocPage 1 st_victim = (Ok (4, 0), st_allocated) ∧
  hashTable st_allocated !! (1, 4) = Some 0.
Proof.
  assert (Hw : well_sized st_victim) by exact (proj1 st_victim_consistent).
  assert (E : allocPage 1 st_victim = (Ok (4, 0), st_allocated))
    by (vm_compute; reflexivity).
  split; [exact Hw|]. split; [exact E|].
  destruct (allocPage_then_readPage 1 st_victim 4 0 st_allocated Hw E)
    as (_ & _ & H & _).
  exact H.
Defined.

(** X8 on the same run: page 2 stays pinned in frame 1. *)
Lemma allocPage_keeps_pinned_witness :
  consistent st_victim ∧ allocates_new 1 st_victim ∧ pinned (desc st_victim 1) ∧
  page_kept 1 st_victim st_allocated.
Proof.
  split; [exact st_victim_consistent|]. split; [exact st_victim_allocates_new|].
  split; [exact st_victim_pinned|].
  apply (allocPage_keeps_pinned 1 st_victim (allocPage 1 st_victim).1 _ 1
           st_victim_consistent st_victim_allocates_new st_victim_pinned).
  apply surjective_pairing.
Defined.

(** X9 on a run: flushing file 1 raises at the pinned frame 1, which is
    left as it was. *)
Lemma flushFile_other_files_witness :
  flushFile 1 st_victim = (Raise (PagePinnedException 1 2 1), after (flushFile 1) st_victim) ∧
  desc (after (flushFile 1) st_victim) 1 = desc st_victim 1.
Proof.
  assert (E : flushFile 1 st_victim
              = (Raise (PagePinnedException 1 2 1), after (flushFile 1) st_victim))
    by (vm_compute; reflexivity).
  split; [exact E|].
  destruct (flushFile_other_files 1 st_victim _ _ E) as (_ & _ & H).
  exact (proj1 (H 1 st_victim_pinned)).
Defined.

(** X10 on a run: one dirty unpinned page, flushed. *)
Lemma flushFile_leaves_clean_witness :
  1 ≠ NULL ∧ flushFile 1 st_dirty = (Ok tt, after (flushFile 1) st_dirty) ∧
  flushFile 1 (after (flushFile 1) st_dirty) = (Ok tt, after (flushFile 1) st_dirty).
Proof.
  assert (Hn : 1 ≠ NULL) by discriminate.
  assert (E : flushFile 1 st_dirty = (Ok tt, after (flushFile 1) st_dirty))
    by (vm_compute; reflexivity).
  split; [exact Hn|]. split; [exact E|].
  exact (proj2 (flushFile_leaves_clean 1 st_dirty _ Hn E)).
Defined.

(** X11 on a run: a pinned dirty page is disposed of. *)
Lemma disposePage_forgets_witness :
  disposePage 1 1 st_pinned_dirty = (Ok tt, after (disposePage 1 1) st_pinned_dirty) ∧
  hashTable (after (disposePage 1 1) st_pinned_dirty) !! (1, 1) = None.
Proof.
  assert (E : disposePage 1 1 st_pinned_dirty
              = (Ok tt, after (disposePage 1 1) st_pinned_dirty))
    by (vm_compute; reflexivity).
  split; [exact E|].
  exact (proj1 (disposePage_forgets 1 1 st_pinned_dirty _ _ E)).
Defined.

(** X12 on a run that ends with an [allocPage]. *)
Lemma free_frames_invariant_witness :
  reachable st_allocated ∧
  ∀ i, i < numBufs st_allocated → frameNo (desc st_allocated i) = i.
Proof.
  split; [exact st_allocated_reachable|].
  destruct (free_frames_invariant st_allocated st_allocated_reachable) as (_ & _ & H).
  intros i Hi. exact (proj1 (H i Hi)).
Defined.

(** X13 on a run: the destructor writes page 1 back. *)
Lemma BufMgr_delete_writes_dirty_witness :
  reachable st_victim ∧ BufMgr_delete st_victim = write_back (dirty_frames st_victim) st_victim.
Proof.
  split; [exact st_victim_reachable|].
  exact (proj1 (BufMgr_delete_writes_dirty st_victim st_victim_reachable)).
Defined.

(** X14 on a run: two valid frames, two pages in the index. *)
Lemma printSelf_counts_index_witness :
  consistent st_victim ∧ numBufs st_victim < 2 ^ 31 ∧
  printSelf_validFrames st_victim = Z.of_nat (size (hashTable st_victim)).
Proof.
  assert (Hn : numBufs st_victim < 2 ^ 31) by (vm_compute; reflexivity).
  split; [exact st_victim_consistent|]. split; [exact Hn|].
  exact (proj1 (printSelf_counts_index st_victim st_victim_consistent Hn)).
Defined.

(** X15 on a run: the first [allocBuf] of a new manager claims a free
    frame. *)
Lemma allocBuf_without_eviction_witness :
  allocBuf (BufMgr_new 2 disk0) = (Ok 0, after allocBuf (BufMgr_new 2 disk0)) ∧
  valid (desc (BufMgr_new 2 disk0) 0) = false ∧
  disk (after allocBuf (BufMgr_new 2 disk0)) = disk0.
Proof.
  assert (E : allocBuf (BufMgr_new 2 disk0) = (Ok 0, after allocBuf (BufMgr_new 2 disk0)))
    by (vm_compute; reflexivity).
  assert (Hv : valid (desc (BufMgr_new 2 disk0) 0) = false) by (vm_compute; reflexivity).
  split; [exact E|]. split; [exact Hv|].
  destruct (allocBuf_without_eviction _ _ _ E) as (_ & Hd & _).
  - right. exists 0. split; [reflexivity|exact Hv].
  - exact Hd.
Defined.

(** X16 on a run: one frame, unpinned. *)
Lemma allocBuf_no_pins_witness :
  0 < numBufs st_dirty ∧ numBufs st_dirty < 2 ^ 32 ∧
  (∀ i, i < numBufs st_dirty → unpinned (desc st_dirty i) = true) ∧
  ((∃ f s', allocBuf st_dirty = (Ok f, s') ∧ f < numBufs st_dirty) ∨
   (∃ code s', allocBuf st_dirty = (Raise (FileException code), s'))).
Proof.
  assert (H0 : 0 < numBufs st_dirty) by (vm_compute; reflexivity).
  assert (Hn : numBufs st_dirty < 2 ^ 32) by (vm_compute; reflexivity).
  assert (Hun : ∀ i, i < numBufs st_dirty → unpinned (desc st_dirty i) = true).
  { intros i Hi. change (numBufs st_dirty) with 1 in Hi.
    assert (Hz : i = 0) by lia. rewrite Hz. vm_compute. reflexivity. }
  split; [exact H0|]. split; [exact Hn|]. split; [exact Hun|].
  exact (allocBuf_no_pins st_dirty H0 Hn Hun).
Defined.
